(** * VibeCoding: the AI Scrum Master meeting service

    A shallow embedding of [services/meetingService.js] and of the parts of
    [services/aiService.js] it drives, followed by the properties of the
    meeting lifecycle stated in the specification.

    JavaScript [async] methods are coroutines: a method runs synchronously
    up to an [await] of external I/O, is suspended there, and resumes later
    on whatever the shared state has become.  The embedding keeps that shape:
    a method is a function from the current [World] to a [Step], which is
    either finished or suspended on a collaborator call together with its
    continuation. *)

From Stdlib Require Import ZArith String Ascii List Bool Lia.
From stdpp Require Import base option list gmap strings fin_maps pretty.

Local Open Scope Z_scope.

(* ===================================================================== *)
(** ** JavaScript strings and arrays *)
(* ===================================================================== *)

Module Js.

(** [String.prototype.toLowerCase].  Strings are byte strings (UTF-8): the
    ASCII letters are lowered and the other bytes are kept. *)
Definition lower_ascii (c : ascii) : ascii :=
  let n := nat_of_ascii c in
  if (65 <=? n)%nat && (n <=? 90)%nat then ascii_of_nat (n + 32) else c.

Fixpoint toLowerCase (s : string) : string :=
  match s with
  | EmptyString => EmptyString
  | String c t => String (lower_ascii c) (toLowerCase t)
  end.

(** [String.prototype.includes]: [needle] occurs somewhere in [hay]. *)
Fixpoint includes (needle hay : string) : bool :=
  String.prefix needle hay ||
  match hay with
  | EmptyString => false
  | String _ t => includes needle t
  end.

(** [String.prototype.substring(0, n)]. *)
Definition substring0 (n : nat) (s : string) : string := String.substring 0 n s.

(** [a || b] on strings: the empty string and [undefined] are falsy. *)
Definition or_string (a : option string) (b : string) : string :=
  match a with
  | Some EmptyString | None => b
  | Some s => s
  end.

(** [a || b] on numbers: [0] and [undefined] are falsy. *)
Definition or_number (a : option Z) (b : Z) : Z :=
  match a with
  | Some 0 | None => b
  | Some n => n
  end.

(** Truthiness of a field that is [true], [false] or absent. *)
Definition truthy (b : option bool) : bool := default false b.

(** A JavaScript array is a list of slots; a hole (or [undefined]) is
    [None].  [arr[i] = v] overwrites slot [i], growing the array with holes
    when [i] is past the end. *)
Definition array_set {A} (i : nat) (v : A) (arr : list (option A)) : list (option A) :=
  if (i <? length arr)%nat then <[i := Some v]> arr
  else arr ++ replicate (i - length arr) None ++ [Some v].

(** [arr[i]]: [undefined] for a hole and out of range. *)
Definition array_get {A} (i : nat) (arr : list (option A)) : option A :=
  mjoin (arr !! i).

(** [Array.prototype.indexOf]; [None] stands for [-1]. *)
Fixpoint indexOf (x : string) (l : list string) : option nat :=
  match l with
  | [] => None
  | y :: t => if decide (y = x) then Some 0%nat else S <$> indexOf x t
  end.

(** [Array.prototype.includes]. *)
Definition array_includes (x : string) (l : list string) : bool :=
  bool_decide (x ∈ l).

(** [Math.round (d / 60000)] on integers: halves round up. *)
Definition round_minutes (d : Z) : Z := (d + 30000) / 60000.

End Js.

(* ===================================================================== *)
(** ** Data model *)
(* ===================================================================== *)

(** Instants are milliseconds since the epoch; the ISO strings the code
    stores are kept as the instants they denote. *)
Definition Instant := Z.

(** References to heap-allocated JavaScript objects. *)
Definition loc := nat.

Inductive Status := Scheduled | InProgress | Completed | Cancelled.

#[global] Instance Status_eq_dec : EqDecision Status.
Proof. solve_decision. Defined.

(** The [meetingData] argument of [scheduleMeeting]; absent properties are
    [None].  [scheduledTime] is the instant that
    [moment.tz(scheduledTime, timezone)] denotes. *)
Module MeetingData.
Record t := mk {
  title : option string;
  participants : option (list string);
  scheduledTime : Instant;
  duration : option Z;
  isVirtualScrumMaster : option bool;
  timezone : option string;
  recurrence : option string;
  createdBy : option string
}.
End MeetingData.

Module Meeting.
Record t := mk {
  id : string;
  title : string;
  participants : list string;
  scheduledTime : Instant;
  duration : Z;
  isVirtualScrumMaster : bool;
  timezone : string;
  recurrence : string;
  status : Status;
  createdAt : Instant;
  createdBy : option string;
  startedAt : option Instant;
  endedAt : option Instant
}.

Definition with_status (st : Status) (m : t) : t :=
  mk (id m) (title m) (participants m) (scheduledTime m) (duration m)
     (isVirtualScrumMaster m) (timezone m) (recurrence m) st
     (createdAt m) (createdBy m) (startedAt m) (endedAt m).

Definition with_startedAt (x : Instant) (m : t) : t :=
  mk (id m) (title m) (participants m) (scheduledTime m) (duration m)
     (isVirtualScrumMaster m) (timezone m) (recurrence m) (status m)
     (createdAt m) (createdBy m) (Some x) (endedAt m).

Definition with_endedAt (x : Instant) (m : t) : t :=
  mk (id m) (title m) (participants m) (scheduledTime m) (duration m)
     (isVirtualScrumMaster m) (timezone m) (recurrence m) (status m)
     (createdAt m) (createdBy m) (startedAt m) (Some x).

Definition with_duration (d : Z) (m : t) : t :=
  mk (id m) (title m) (participants m) (scheduledTime m) d
     (isVirtualScrumMaster m) (timezone m) (recurrence m) (status m)
     (createdAt m) (createdBy m) (startedAt m) (endedAt m).
End Meeting.

(** One collected answer of a stand-up; [question] is [None] when
    [questions[questionIndex]] is [undefined]. *)
Module Answer.
Record t := mk {
  question : option string;
  answer : string;
  timestamp : Instant
}.
End Answer.

(** The per-participant object built by [conductStandupSession] and rebuilt
    (by object spread) by [processStandupResponse].  [responses] is a
    reference: the spread copies the reference, so every generation of a
    participant's object shares one array.  [lastAIResponse] and
    [isComplete] are absent until the first answer. *)
Module Standup.
Record t := mk {
  questions : list string;
  currentQuestionIndex : nat;
  responses : loc;
  participantName : string;
  sessionId : Instant * string;
  lastAIResponse : option string;
  isComplete : option bool
}.
End Standup.

(** The session object of [startMeeting].  [responses] is the response
    table: slot [i] is a hole or a reference to the answers array of
    [participants[i]]. *)
Module Session.
Record t := mk {
  meetingId : string;
  participants : list string;
  responses : list (option loc);
  currentParticipantIndex : nat;
  activeStandupSessions : gmap string Standup.t;
  startTime : Instant;
  isVirtualScrumMaster : bool
}.

Definition with_responses (r : list (option loc)) (s : t) : t :=
  mk (meetingId s) (participants s) r (currentParticipantIndex s)
     (activeStandupSessions s) (startTime s) (isVirtualScrumMaster s).

Definition with_activeStandupSessions (a : gmap string Standup.t) (s : t) : t :=
  mk (meetingId s) (participants s) (responses s) (currentParticipantIndex s)
     a (startTime s) (isVirtualScrumMaster s).
End Session.

(** A [node-cron] task created by [scheduleRecurringMeeting]; the minute and
    hour of its expression are those of [instant] in [timezone], on
    weekdays. *)
Record CronJob := { job_meetingId : string; job_instant : Instant; job_timezone : string }.

(** A pending [setTimeout] callback of [scheduleOneTimeMeeting]. *)
Record Timer := { timer_due : Instant; timer_meetingId : string }.

Inductive Level := LLog | LWarn | LError.

(** The process state: the three maps of [MeetingService], the objects they
    refer to, the timers of the runtime, the clock, the configuration and
    what was written to the console. *)
Record World := {
  now : Instant;
  openAIClient : bool;
  TEAM_LEAD_EMAIL : option string;
  meetings : gmap string Meeting.t;
  activeSessions : gmap string loc;
  scheduledJobs : gmap string CronJob;
  timers : list Timer;
  sessionObjs : gmap loc Session.t;
  arrayObjs : gmap loc (list (option Answer.t));
  nextLoc : loc;
  console : list (Level * string)
}.

Definition set_meetings (f : gmap string Meeting.t -> gmap string Meeting.t) (w : World) : World :=
  {| now := now w; openAIClient := openAIClient w; TEAM_LEAD_EMAIL := TEAM_LEAD_EMAIL w;
     meetings := f (meetings w); activeSessions := activeSessions w;
     scheduledJobs := scheduledJobs w; timers := timers w;
     sessionObjs := sessionObjs w; arrayObjs := arrayObjs w;
     nextLoc := nextLoc w; console := console w |}.

Definition set_activeSessions (f : gmap string loc -> gmap string loc) (w : World) : World :=
  {| now := now w; openAIClient := openAIClient w; TEAM_LEAD_EMAIL := TEAM_LEAD_EMAIL w;
     meetings := meetings w; activeSessions := f (activeSessions w);
     scheduledJobs := scheduledJobs w; timers := timers w;
     sessionObjs := sessionObjs w; arrayObjs := arrayObjs w;
     nextLoc := nextLoc w; console := console w |}.

Definition set_scheduledJobs (f : gmap string CronJob -> gmap string CronJob) (w : World) : World :=
  {| now := now w; openAIClient := openAIClient w; TEAM_LEAD_EMAIL := TEAM_LEAD_EMAIL w;
     meetings := meetings w; activeSessions := activeSessions w;
     scheduledJobs := f (scheduledJobs w); timers := timers w;
     sessionObjs := sessionObjs w; arrayObjs := arrayObjs w;
     nextLoc := nextLoc w; console := console w |}.

Definition set_timers (f : list Timer -> list Timer) (w : World) : World :=
  {| now := now w; openAIClient := openAIClient w; TEAM_LEAD_EMAIL := TEAM_LEAD_EMAIL w;
     meetings := meetings w; activeSessions := activeSessions w;
     scheduledJobs := scheduledJobs w; timers := f (timers w);
     sessionObjs := sessionObjs w; arrayObjs := arrayObjs w;
     nextLoc := nextLoc w; console := console w |}.

Definition set_sessionObjs (f : gmap loc Session.t -> gmap loc Session.t) (w : World) : World :=
  {| now := now w; openAIClient := openAIClient w; TEAM_LEAD_EMAIL := TEAM_LEAD_EMAIL w;
     meetings := meetings w; activeSessions := activeSessions w;
     scheduledJobs := scheduledJobs w; timers := timers w;
     sessionObjs := f (sessionObjs w); arrayObjs := arrayObjs w;
     nextLoc := nextLoc w; console := console w |}.

Definition set_arrayObjs
    (f : gmap loc (list (option Answer.t)) -> gmap loc (list (option Answer.t)))
    (w : World) : World :=
  {| now := now w; openAIClient := openAIClient w; TEAM_LEAD_EMAIL := TEAM_LEAD_EMAIL w;
     meetings := meetings w; activeSessions := activeSessions w;
     scheduledJobs := scheduledJobs w; timers := timers w;
     sessionObjs := sessionObjs w; arrayObjs := f (arrayObjs w);
     nextLoc := nextLoc w; console := console w |}.

Definition set_nextLoc (n : loc) (w : World) : World :=
  {| now := now w; openAIClient := openAIClient w; TEAM_LEAD_EMAIL := TEAM_LEAD_EMAIL w;
     meetings := meetings w; activeSessions := activeSessions w;
     scheduledJobs := scheduledJobs w; timers := timers w;
     sessionObjs := sessionObjs w; arrayObjs := arrayObjs w;
     nextLoc := n; console := console w |}.

Definition set_console (f : list (Level * string) -> list (Level * string)) (w : World) : World :=
  {| now := now w; openAIClient := openAIClient w; TEAM_LEAD_EMAIL := TEAM_LEAD_EMAIL w;
     meetings := meetings w; activeSessions := activeSessions w;
     scheduledJobs := scheduledJobs w; timers := timers w;
     sessionObjs := sessionObjs w; arrayObjs := arrayObjs w;
     nextLoc := nextLoc w; console := f (console w) |}.

Definition set_now (t : Instant) (w : World) : World :=
  {| now := t; openAIClient := openAIClient w; TEAM_LEAD_EMAIL := TEAM_LEAD_EMAIL w;
     meetings := meetings w; activeSessions := activeSessions w;
     scheduledJobs := scheduledJobs w; timers := timers w;
     sessionObjs := sessionObjs w; arrayObjs := arrayObjs w;
     nextLoc := nextLoc w; console := console w |}.

(** The session object the [activeSessions] map holds for a meeting. *)
Definition session_of (w : World) (meetingId : string) : option Session.t :=
  l ← activeSessions w !! meetingId; sessionObjs w !! l.

(* ===================================================================== *)
(** ** Asynchronous computations *)
(* ===================================================================== *)

(** What a method hands to a collaborator when it awaits external I/O. *)
Inductive Role := ScrumMaster | Summarizer | BlockerAnalyzer.
Inductive EmailKind := MeetingSummary | BlockerAlert | MeetingNotification.

Inductive Call :=
| GetChatCompletions (role : Role) (prompt : string)
| SendEmail (kind : EmailKind) (recipients : list string) (meetingTitle : string)
| UpdateTasks (meetingId : string).

(** How the awaited promise settles.  For the chat completion, [content] is
    [response.choices[0]?.message?.content]. *)
Inductive Reply :=
| Fulfilled (content : option string)
| Rejected (error : string).

(** A settled promise: a value, or a thrown [Error] with its message. *)
Inductive Result (A : Type) :=
| Ok (a : A)
| Err (message : string).
Arguments Ok {A} a.
Arguments Err {A} message.

(** A method that has run as far as it can: it has returned or thrown
    leaving the world [w], or it is suspended on [c], having left the world
    [w]; [k] resumes it with the reply, on the world as it is by then. *)
Inductive Step (A : Type) : Type :=
| Done (w : World) (r : Result A)
| Await (w : World) (c : Call) (k : Reply -> World -> Step A).
Arguments Done {A} w r.
Arguments Await {A} w c k.

Definition Async (A : Type) : Type := World -> Step A.

Definition ret {A} (a : A) : Async A := fun w => Done w (Ok a).
Definition throw {A} (message : string) : Async A := fun w => Done w (Err message).

Fixpoint bind_step {A B} (s : Step A) (f : A -> Async B) : Step B :=
  match s with
  | Done w (Ok a) => f a w
  | Done w (Err e) => Done w (Err e)
  | Await w c k => Await w c (fun r w' => bind_step (k r w') f)
  end.

Definition bind {A B} (m : Async A) (f : A -> Async B) : Async B :=
  fun w => bind_step (m w) f.

(** [try { m } catch (error) { h error }]. *)
Fixpoint catch_step {A} (s : Step A) (h : string -> Async A) : Step A :=
  match s with
  | Done w (Ok a) => Done w (Ok a)
  | Done w (Err e) => h e w
  | Await w c k => Await w c (fun r w' => catch_step (k r w') h)
  end.

Definition try_catch {A} (m : Async A) (h : string -> Async A) : Async A :=
  fun w => catch_step (m w) h.

Declare Scope async_scope.
Delimit Scope async_scope with async.
Notation "x <- m ;; k" := (bind m (fun x => k))
  (at level 100, m at next level, right associativity) : async_scope.
Notation "m ;; k" := (bind m (fun _ => k))
  (at level 100, right associativity) : async_scope.
Local Open Scope async_scope.

(** Await external I/O: the only place where a method is suspended. *)
Definition await_io (c : Call) : Async Reply :=
  fun w => Await w c (fun r w' => Done w' (Ok r)).

Definition get {A} (f : World -> A) : Async A := fun w => Done w (Ok (f w)).
Definition modify (f : World -> World) : Async unit := fun w => Done (f w) (Ok tt).

Definition console_log (s : string) : Async unit :=
  modify (set_console (fun c => c ++ [(LLog, s)])).
Definition console_warn (s : string) : Async unit :=
  modify (set_console (fun c => c ++ [(LWarn, s)])).
(** [console.error(prefix, error)]. *)
Definition console_error (prefix error : string) : Async unit :=
  modify (set_console (fun c => c ++ [(LError, prefix +:+ " " +:+ error)])).

(** [new SomeObject] on the heap: the next free reference. *)
Definition alloc : Async loc :=
  fun w => Done (set_nextLoc (S (nextLoc w)) w) (Ok (nextLoc w)).

(** [await promise] for a collaborator's promise: a rejection is thrown. *)
Definition await_call (c : Call) : Async (option string) :=
  r <- await_io c ;;
  match r with
  | Fulfilled content => ret content
  | Rejected error => throw error
  end.

(* ===================================================================== *)
(** ** services/aiService.js *)
(* ===================================================================== *)

Module AIService.

Definition dq : string := String (ascii_of_nat 34) EmptyString.
Definition nl : string := String (ascii_of_nat 10) EmptyString.

(** The rendering of an instant ([toISOString]); calendar formatting is
    not modelled, the instant is printed as its number. *)
Definition toISOString (t : Instant) : string := pretty t.

(** The [meetingData] record [endMeeting] assembles.  [responses] is a
    reference to the response table, which lives in the session object:
    the table is read through the session's reference whenever it is used. *)
Record MeetingRecord := {
  mr_id : string;
  mr_title : string;
  mr_participants : list string;
  mr_responses : loc;
  mr_date : Instant;
  mr_duration : Z
}.

Record Blocker := {
  b_participant : string;
  b_blocker : string;
  b_timestamp : Instant
}.

Record Summary := {
  sm_summary : string;
  sm_meetingDate : Instant;
  sm_participants : list string;
  sm_duration : Z;
  sm_blockers : list Blocker
}.

Record BlockerAnalysis := {
  ba_analysis : string;
  ba_requiresEscalation : bool;
  ba_blockers : list Blocker
}.

Definition generateResponse (prompt : string) (systemRole : Role) : Async string :=
  try_catch
    (client <- get openAIClient ;;
     if negb client then
       console_warn "Azure OpenAI client not configured. Returning mock response." ;;
       ret ("[DEMO MODE] Mock AI response for: " +:+ Js.substring0 50 prompt +:+ "...")
     else
       content <- await_call (GetChatCompletions systemRole prompt) ;;
       ret (Js.or_string content "I apologize, but I could not generate a response."))
    (fun error =>
       console_error "Error generating AI response:" error ;;
       ret ("[DEMO MODE] Error generating AI response. Mock response for: "
            +:+ Js.substring0 50 prompt +:+ "...")).

(** The object [conductStandupSession] returns, its [responses] array
    being the new array at [l]. *)
Definition freshStandup (t : Instant) (l : loc) (participantName : string) : Standup.t :=
  {| Standup.questions :=
       [ "Hello " +:+ participantName
           +:+ "! Let's start with our daily standup. What did you accomplish yesterday?";
         "Great! Now, what are you planning to work on today?";
         "Perfect! Do you have any blockers or impediments that are preventing you from moving forward?" ];
     Standup.currentQuestionIndex := 0;
     Standup.responses := l;
     Standup.participantName := participantName;
     Standup.sessionId := (t, participantName);
     Standup.lastAIResponse := None;
     Standup.isComplete := None |}.

Definition conductStandupSession (participantName : string) : Async Standup.t :=
  t <- get now ;;
  l <- alloc ;;
  modify (set_arrayObjs (insert l [])) ;;
  ret (freshStandup t l participantName).

(** The test of the third question: the lower-cased answer contains [no]
    or [none]. *)
Definition says_no (response : string) : bool :=
  Js.includes "no" (Js.toLowerCase response) || Js.includes "none" (Js.toLowerCase response).

Definition no_blockers_ack : string :=
  "Excellent! No blockers is great to hear. Thanks for the update!".

(** The object [processStandupResponse] returns: the spread of
    [sessionData] with three properties replaced. *)
Definition answered (sessionData : Standup.t) (questionIndex : nat) (aiResponse : string)
  : Standup.t :=
  {| Standup.questions := Standup.questions sessionData;
     Standup.currentQuestionIndex := questionIndex + 1;
     Standup.responses := Standup.responses sessionData;
     Standup.participantName := Standup.participantName sessionData;
     Standup.sessionId := Standup.sessionId sessionData;
     Standup.lastAIResponse := Some aiResponse;
     Standup.isComplete := Some (2 <=? questionIndex)%nat |}.

Definition processStandupResponse
    (sessionData : Standup.t) (response : string) (questionIndex : nat) : Async Standup.t :=
  try_catch
    (t <- get now ;;
     modify (set_arrayObjs (alter
       (Js.array_set questionIndex
          {| Answer.question := Standup.questions sessionData !! questionIndex;
             Answer.answer := response;
             Answer.timestamp := t |})
       (Standup.responses sessionData))) ;;
     aiResponse <-
       (if (questionIndex =? 0)%nat then
          generateResponse
            ("The team member said they accomplished: " +:+ dq +:+ response +:+ dq
             +:+ ". Provide a brief, encouraging acknowledgment and ask about today's plans.")
            ScrumMaster
        else if (questionIndex =? 1)%nat then
          generateResponse
            ("The team member plans to work on: " +:+ dq +:+ response +:+ dq
             +:+ ". Acknowledge their plans and ask about any blockers.")
            ScrumMaster
        else if (questionIndex =? 2)%nat then
          if says_no response then ret no_blockers_ack
          else
            generateResponse
              ("The team member mentioned these blockers: " +:+ dq +:+ response +:+ dq
               +:+ ". Provide supportive response and indicate you'll help address them.")
              ScrumMaster
        else ret EmptyString) ;;
     ret (answered sessionData questionIndex aiResponse))
    (fun error =>
       console_error "Error processing standup response:" error ;;
       throw "Failed to process standup response").

(** The response table read through the reference [meetingData.responses]:
    for each slot, the answers array it refers to. *)
Definition read_table (w : World) (table : loc) : list (option (list (option Answer.t))) :=
  match sessionObjs w !! table with
  | Some s => (fun slot => l ← slot; arrayObjs w !! l) <$> Session.responses s
  | None => []
  end.

Definition extractBlockers (responses : list (option (list (option Answer.t)))) : list Blocker :=
  mjoin (imap (fun index participantResponses =>
    match participantResponses with
    | Some row =>
        if (2 <? length row)%nat then
          match Js.array_get 2 row with
          | Some blockerResponse =>
              if negb (Js.includes "no" (Js.toLowerCase (Answer.answer blockerResponse)))
                 && negb (Js.includes "none" (Js.toLowerCase (Answer.answer blockerResponse)))
              then [ {| b_participant := "Participant " +:+ pretty (index + 1)%nat;
                        b_blocker := Answer.answer blockerResponse;
                        b_timestamp := Answer.timestamp blockerResponse |} ]
              else []
          | None => []
          end
        else []
    | None => []
    end) responses).

Definition summaryPrompt (participants : list string) (date : Instant)
    (responses : list (option (list (option Answer.t)))) : string :=
  "Summarize this daily standup meeting:" +:+ nl +:+ "      " +:+ nl
  +:+ "Participants: " +:+ String.concat ", " participants +:+ nl
  +:+ "Meeting Date: " +:+ toISOString date +:+ nl +:+ nl
  +:+ "Responses:" +:+ nl
  +:+ String.concat EmptyString (imap (fun index participantResponses =>
        match participantResponses with
        | Some row =>
            if (0 <? length row)%nat then
              nl +:+ Js.or_string (participants !! index) ("Participant " +:+ pretty (index + 1)%nat)
              +:+ ":"
              +:+ String.concat EmptyString ((fun r =>
                    match r with
                    | Some response =>
                        nl +:+ "- " +:+ default "undefined" (Answer.question response)
                        +:+ ": " +:+ Answer.answer response
                    | None => EmptyString
                    end) <$> row)
            else EmptyString
        | None => EmptyString
        end) responses).

Definition summarizeMeeting (meetingData : MeetingRecord) : Async Summary :=
  try_catch
    (responses <- get (fun w => read_table w (mr_responses meetingData)) ;;
     summary <- generateResponse
       (summaryPrompt (mr_participants meetingData) (mr_date meetingData) responses)
       Summarizer ;;
     responses' <- get (fun w => read_table w (mr_responses meetingData)) ;;
     ret {| sm_summary := summary;
            sm_meetingDate := mr_date meetingData;
            sm_participants := mr_participants meetingData;
            sm_duration := mr_duration meetingData;
            sm_blockers := extractBlockers responses' |})
    (fun error =>
       console_error "Error summarizing meeting:" error ;;
       throw "Failed to summarize meeting").

Definition urgentKeywords : list string :=
  ["urgent"; "critical"; "blocked completely"; "cannot proceed"; "escalate"].

Definition analyzeBlockers (blockers : list Blocker) : Async BlockerAnalysis :=
  try_catch
    (match blockers with
     | [] =>
         ret {| ba_analysis := "No blockers were identified in this standup meeting.";
                ba_requiresEscalation := false;
                ba_blockers := [] |}
     | _ =>
         let blockersText :=
           String.concat nl ((fun b => b_participant b +:+ ": " +:+ b_blocker b) <$> blockers) in
         analysis <- generateResponse
           ("Analyze these project blockers from a daily standup:" +:+ nl +:+ nl
            +:+ blockersText +:+ nl +:+ nl
            +:+ "Provide detailed analysis including categorization, urgency assessment, and recommendations.")
           BlockerAnalyzer ;;
         ret {| ba_analysis := analysis;
                ba_requiresEscalation :=
                  existsb (fun keyword =>
                    Js.includes keyword (Js.toLowerCase analysis)
                    || Js.includes keyword (Js.toLowerCase blockersText)) urgentKeywords;
                ba_blockers := blockers |}
     end)
    (fun error =>
       console_error "Error analyzing blockers:" error ;;
       throw "Failed to analyze blockers").

End AIService.

(* ===================================================================== *)
(** ** services/emailService.js and services/devopsService.js *)
(* ===================================================================== *)

(** The two services are collaborators: what matters here is when they are
    awaited and whether their promise is fulfilled or rejected.  The mail
    transport and the work-item API are the external I/O. *)
Module EmailService.

Definition sendEmail (kind : EmailKind) (recipients : list string) (meetingTitle : string)
  : Async unit :=
  try_catch
    (await_call (SendEmail kind recipients meetingTitle) ;;
     console_log "Email sent" ;;
     ret tt)
    (fun error =>
       console_error "Error sending email:" error ;;
       throw "Failed to send email").

Definition sendMeetingSummary (participants : list string) (meetingTitle : string) : Async unit :=
  try_catch
    (sendEmail MeetingSummary participants meetingTitle ;;
     console_log ("Meeting summary sent to " +:+ pretty (length participants) +:+ " participants"))
    (fun error =>
       console_error "Error sending meeting summary:" error ;;
       throw "Failed to send meeting summary").

Definition sendBlockerAlert (recipients : list string) (meetingTitle : string) : Async unit :=
  try_catch
    (sendEmail BlockerAlert recipients meetingTitle ;;
     console_log "Blocker alert sent to team lead(s)")
    (fun error =>
       console_error "Error sending blocker alert:" error ;;
       throw "Failed to send blocker alert").

Definition sendMeetingNotification (participants : list string) (meetingTitle : string)
  : Async unit :=
  try_catch
    (sendEmail MeetingNotification participants meetingTitle ;;
     console_log ("Meeting notification sent to " +:+ pretty (length participants)
                  +:+ " participants"))
    (fun error =>
       console_error "Error sending meeting notification:" error ;;
       throw "Failed to send meeting notification").

End EmailService.

Module DevOpsService.

Definition updateTasksFromMeeting (meetingData : AIService.MeetingRecord) : Async unit :=
  try_catch
    (await_call (UpdateTasks (AIService.mr_id meetingData)) ;;
     ret tt)
    (fun error =>
       console_error "Error updating Azure DevOps tasks:" error ;;
       throw "Failed to update Azure DevOps tasks").

End DevOpsService.

(* ===================================================================== *)
(** ** services/meetingService.js *)
(* ===================================================================== *)

Module MeetingService.

Import AIService.

(** What [joinMeeting] returns. *)
Record JoinData := {
  jd_sessionId : option (Instant * string);
  jd_welcomeMessage : string;
  jd_firstQuestion : option string;
  jd_title : string;
  jd_startTime : Instant;
  jd_participants : list string
}.

(** What [submitStandupResponse] returns. *)
Record ResponseData := {
  rd_acknowledgment : option string;
  rd_isComplete : option bool;
  rd_nextQuestion : option string;
  rd_completionMessage : option string
}.

(** What [endMeeting] returns. *)
Record EndResult := {
  er_summary : Summary;
  er_blockerAnalysis : BlockerAnalysis;
  er_meetingData : MeetingRecord
}.

(** [session.activeStandupSessions.set(participantName, standupSession)]. *)
Definition setStandup (participantName : string) (standupSession : Standup.t)
    (session : Session.t) : Session.t :=
  Session.with_activeStandupSessions
    (<[participantName := standupSession]> (Session.activeStandupSessions session)) session.

(** [session.responses[session.participants.indexOf(participantName)] = responses]:
    with index [-1] the assignment sets a property of the array object and
    no element. *)
Definition storeResponses (participantName : string) (responses : loc)
    (session : Session.t) : Session.t :=
  match Js.indexOf participantName (Session.participants session) with
  | Some participantIndex =>
      Session.with_responses
        (Js.array_set participantIndex responses (Session.responses session)) session
  | None => session
  end.

Definition typeError_undefined (property : string) : string :=
  "Cannot read properties of undefined (reading '" +:+ property +:+ "')".

Definition notifyParticipants (meeting : Meeting.t) (subject : string) : Async unit :=
  try_catch
    (EmailService.sendMeetingNotification (Meeting.participants meeting) (Meeting.title meeting))
    (fun error => console_error "Error notifying participants:" error).

Definition scheduleRecurringMeeting (meeting : Meeting.t) : Async unit :=
  let job := {| job_meetingId := Meeting.id meeting;
                job_instant := Meeting.scheduledTime meeting;
                job_timezone := Meeting.timezone meeting |} in
  modify (set_scheduledJobs (insert (Meeting.id meeting) job)) ;;
  console_log ("Scheduled recurring daily standup for " +:+ Meeting.title meeting).

Definition scheduleOneTimeMeeting (meeting : Meeting.t) : Async unit :=
  let scheduledTime := Meeting.scheduledTime meeting in
  now <- get now ;;
  if scheduledTime <? now then throw "Cannot schedule meeting in the past"
  else
    let delay := scheduledTime - now in
    modify (set_timers (fun ts =>
      ts ++ [ {| timer_due := now + delay; timer_meetingId := Meeting.id meeting |} ])) ;;
    console_log ("Scheduled one-time meeting for " +:+ Meeting.title meeting).

(** The meeting object [scheduleMeeting] builds at instant [t]; [uuid] is
    the identifier [uuidv4()] draws. *)
Definition newMeeting (uuid : string) (meetingData : MeetingData.t) (t : Instant) : Meeting.t :=
  {| Meeting.id := uuid;
     Meeting.title := Js.or_string (MeetingData.title meetingData) "Daily Standup";
     Meeting.participants := default [] (MeetingData.participants meetingData);
     Meeting.scheduledTime := MeetingData.scheduledTime meetingData;
     Meeting.duration := Js.or_number (MeetingData.duration meetingData) 30;
     Meeting.isVirtualScrumMaster :=
       Js.truthy (MeetingData.isVirtualScrumMaster meetingData);
     Meeting.timezone := Js.or_string (MeetingData.timezone meetingData) "UTC";
     Meeting.recurrence := Js.or_string (MeetingData.recurrence meetingData) "none";
     Meeting.status := Scheduled;
     Meeting.createdAt := t;
     Meeting.createdBy := MeetingData.createdBy meetingData;
     Meeting.startedAt := None;
     Meeting.endedAt := None |}.

Definition scheduleMeeting (uuid : string) (meetingData : MeetingData.t) : Async Meeting.t :=
  try_catch
    (t <- get now ;;
     let meeting := newMeeting uuid meetingData t in
     modify (set_meetings (insert (Meeting.id meeting) meeting)) ;;
     (if decide (MeetingData.recurrence meetingData = Some "daily")
      then scheduleRecurringMeeting meeting
      else scheduleOneTimeMeeting meeting) ;;
     ret meeting)
    (fun error =>
       console_error "Error scheduling meeting:" error ;;
       throw "Failed to schedule meeting").

(** Returns the reference to the new session object. *)
Definition startMeeting (meetingId : string) : Async loc :=
  try_catch
    (found <- get (fun w => meetings w !! meetingId) ;;
     match found with
     | None => throw "Meeting not found"
     | Some meeting =>
         t <- get now ;;
         modify (set_meetings (alter
           (fun m => Meeting.with_startedAt t (Meeting.with_status InProgress m)) meetingId)) ;;
         let session :=
           {| Session.meetingId := meetingId;
              Session.participants := Meeting.participants meeting;
              Session.responses := [];
              Session.currentParticipantIndex := 0;
              Session.activeStandupSessions := ∅;
              Session.startTime := t;
              Session.isVirtualScrumMaster := Meeting.isVirtualScrumMaster meeting |} in
         l <- alloc ;;
         modify (set_sessionObjs (insert l session)) ;;
         modify (set_activeSessions (insert meetingId l)) ;;
         notifyParticipants meeting "Meeting Started" ;;
         console_log ("Meeting " +:+ Meeting.title meeting +:+ " started") ;;
         ret l
     end)
    (fun error =>
       console_error "Error starting meeting:" error ;;
       throw "Failed to start meeting").

Definition joinMeeting (meetingId participantName : string) : Async JoinData :=
  try_catch
    (ref <- get (fun w => activeSessions w !! meetingId) ;;
     match ref with
     | None => throw "Meeting session not found or meeting has not started"
     | Some l =>
         session <- get (fun w => sessionObjs w !! l) ;;
         found <- get (fun w => meetings w !! meetingId) ;;
         match session, found with
         | Some session, Some meeting =>
             if negb (Js.array_includes participantName (Meeting.participants meeting))
             then throw "Participant not invited to this meeting"
             else if Session.isVirtualScrumMaster session then
               standupSession <- conductStandupSession participantName ;;
               modify (set_sessionObjs (alter (setStandup participantName standupSession) l)) ;;
               ret {| jd_sessionId := Some (Standup.sessionId standupSession);
                      jd_welcomeMessage :=
                        "Welcome to the daily standup, " +:+ participantName
                        +:+ "! I'm your virtual Scrum Master today.";
                      jd_firstQuestion := Standup.questions standupSession !! 0%nat;
                      jd_title := Meeting.title meeting;
                      jd_startTime := Session.startTime session;
                      jd_participants := Session.participants session |}
             else
               ret {| jd_sessionId := None;
                      jd_welcomeMessage :=
                        "Welcome to the daily standup, " +:+ participantName +:+ "!";
                      jd_firstQuestion := None;
                      jd_title := Meeting.title meeting;
                      jd_startTime := Session.startTime session;
                      jd_participants := Session.participants session |}
         | _, _ => throw (typeError_undefined "participants")
         end
     end)
    (fun error =>
       console_error "Error joining meeting:" error ;;
       throw "Failed to join meeting").

Definition alertTeamLead (meetingId : string) (blockerAnalysis : BlockerAnalysis) : Async unit :=
  try_catch
    (found <- get (fun w => meetings w !! meetingId) ;;
     teamLeadEmail <- get (fun w => Js.or_string (TEAM_LEAD_EMAIL w) "teamlead@company.com") ;;
     match found with
     | None => throw (typeError_undefined "title")
     | Some meeting =>
         EmailService.sendBlockerAlert [teamLeadEmail] (Meeting.title meeting) ;;
         console_log ("Team lead alerted about urgent blockers from meeting " +:+ meetingId)
     end)
    (fun error => console_error "Error alerting team lead:" error).

Definition endMeeting (meetingId : string) : Async EndResult :=
  try_catch
    (ref <- get (fun w => activeSessions w !! meetingId) ;;
     session <- get (fun w => l ← ref; sessionObjs w !! l) ;;
     found <- get (fun w => meetings w !! meetingId) ;;
     match ref, session, found with
     | Some l, Some session, Some meeting =>
         t <- get now ;;
         let duration := Js.round_minutes (t - Session.startTime session) in
         modify (set_meetings (alter (fun m =>
           Meeting.with_duration duration
             (Meeting.with_endedAt t (Meeting.with_status Completed m))) meetingId)) ;;
         let meetingData :=
           {| mr_id := meetingId;
              mr_title := Meeting.title meeting;
              mr_participants := Session.participants session;
              mr_responses := l;
              mr_date := Session.startTime session;
              mr_duration := duration |} in
         summary <- summarizeMeeting meetingData ;;
         blockerAnalysis <- analyzeBlockers (sm_blockers summary) ;;
         EmailService.sendMeetingSummary (Meeting.participants meeting) (Meeting.title meeting) ;;
         (if ba_requiresEscalation blockerAnalysis
          then alertTeamLead meetingId blockerAnalysis
          else ret tt) ;;
         DevOpsService.updateTasksFromMeeting meetingData ;;
         modify (set_activeSessions (delete meetingId)) ;;
         console_log ("Meeting " +:+ Meeting.title meeting +:+ " completed") ;;
         ret {| er_summary := summary;
                er_blockerAnalysis := blockerAnalysis;
                er_meetingData := meetingData |}
     | _, _, _ => throw "Meeting or session not found"
     end)
    (fun error =>
       console_error "Error ending meeting:" error ;;
       throw "Failed to end meeting").

(** The number of stand-ups of a session that are complete. *)
Definition completedParticipants (session : Session.t) : nat :=
  length (filter (fun s : Standup.t => Js.truthy (Standup.isComplete s))
            (map_to_list (Session.activeStandupSessions session)).*2).

Definition checkMeetingCompletion (meetingId : string) : Async unit :=
  session <- get (fun w => session_of w meetingId) ;;
  match session with
  | None => throw (typeError_undefined "activeStandupSessions")
  | Some session =>
      if (completedParticipants session =? length (Session.participants session))%nat
      then endMeeting meetingId ;; ret tt
      else ret tt
  end.

Definition completionMessage : string :=
  "Thank you for your standup update! You can now leave the meeting or wait for others to finish.".

Definition submitStandupResponse (meetingId participantName response : string)
  : Async ResponseData :=
  try_catch
    (ref <- get (fun w => activeSessions w !! meetingId) ;;
     session <- get (fun w => l ← ref; sessionObjs w !! l) ;;
     match ref, session with
     | Some l, Some session =>
         match Session.activeStandupSessions session !! participantName with
         | None => throw "Standup session not found for participant"
         | Some standupSession =>
             updatedSession <- processStandupResponse standupSession response
                                 (Standup.currentQuestionIndex standupSession) ;;
             modify (set_sessionObjs (alter (setStandup participantName updatedSession) l)) ;;
             if negb (Js.truthy (Standup.isComplete updatedSession)) then
               ret {| rd_acknowledgment := Standup.lastAIResponse updatedSession;
                      rd_isComplete := Standup.isComplete updatedSession;
                      rd_nextQuestion :=
                        Standup.questions updatedSession
                          !! Standup.currentQuestionIndex updatedSession;
                      rd_completionMessage := None |}
             else
               modify (set_sessionObjs (alter
                 (storeResponses participantName (Standup.responses updatedSession)) l)) ;;
               checkMeetingCompletion meetingId ;;
               ret {| rd_acknowledgment := Standup.lastAIResponse updatedSession;
                      rd_isComplete := Standup.isComplete updatedSession;
                      rd_nextQuestion := None;
                      rd_completionMessage := Some completionMessage |}
         end
     | _, _ => throw "Meeting session not found"
     end)
    (fun error =>
       console_error "Error submitting standup response:" error ;;
       throw "Failed to submit standup response").

Definition getMeeting (meetingId : string) : Async Meeting.t :=
  found <- get (fun w => meetings w !! meetingId) ;;
  match found with
  | None => throw "Meeting not found"
  | Some meeting => ret meeting
  end.

(** Returns the meeting as it is when the promise settles. *)
Definition cancelMeeting (meetingId : string) : Async Meeting.t :=
  try_catch
    (found <- get (fun w => meetings w !! meetingId) ;;
     match found with
     | None => throw "Meeting not found"
     | Some meeting =>
         modify (set_meetings (alter (Meeting.with_status Cancelled) meetingId)) ;;
         job <- get (fun w => scheduledJobs w !! meetingId) ;;
         (match job with
          | Some _ => modify (set_scheduledJobs (delete meetingId))
          | None => ret tt
          end) ;;
         notifyParticipants meeting "Meeting Cancelled" ;;
         console_log ("Meeting " +:+ Meeting.title meeting +:+ " has been cancelled") ;;
         getMeeting meetingId
     end)
    (fun error =>
       console_error "Error cancelling meeting:" error ;;
       throw "Failed to cancel meeting").

(** *** The triggers

    The runtime owns the timers of [setTimeout] and the tasks of
    [node-cron]; both call [startMeeting] with the meeting identifier their
    callback closed over. *)

(** The [n]th pending timer expires, which it does not do before it is
    due: it leaves the timer queue and its callback runs. *)
Definition fireTimer (n : nat) : Async unit :=
  ts <- get timers ;;
  t <- get now ;;
  match ts !! n with
  | None => ret tt
  | Some timer =>
      if timer_due timer <=? t then
        modify (set_timers (delete n)) ;;
        startMeeting (timer_meetingId timer) ;;
        ret tt
      else ret tt
  end.

(** The cron expression of the task registered for [meetingId] matches the
    clock: a task that was destroyed does not run. *)
Definition cronTick (meetingId : string) : Async unit :=
  job <- get (fun w => scheduledJobs w !! meetingId) ;;
  match job with
  | None => ret tt
  | Some job => startMeeting (job_meetingId job) ;; ret tt
  end.

End MeetingService.

(* ===================================================================== *)
(** ** services/devopsService.js: the state of a work item *)
(* ===================================================================== *)

(** The pure part of the task synchronisation: what it reads from the row
    of a participant and the state it then chooses for a work item. *)
Module WorkItems.

(** The [updateData] object [updateTasksFromMeeting] builds from the row of
    a participant. *)
Record UpdateData := {
  yesterdayWork : string;
  todayPlans : string;
  blockers : string
}.

(** [responses[i]?.answer || ''] *)
Definition answer_or_empty (row : list (option Answer.t)) (i : nat) : string :=
  match Js.array_get i row with
  | Some response => Js.or_string (Some (Answer.answer response)) EmptyString
  | None => EmptyString
  end.

Definition updateDataOf (row : list (option Answer.t)) : UpdateData :=
  {| yesterdayWork := answer_or_empty row 0;
     todayPlans := answer_or_empty row 1;
     blockers := answer_or_empty row 2 |}.

(** [determineNewState]; [currentState] is [workItem.fields['System.State']]
    and the result [None] is [null]. *)
Definition determineNewState (currentState : option string) (updateData : UpdateData)
  : option string :=
  if negb (String.eqb (blockers updateData) EmptyString)
     && negb (Js.includes "no" (Js.toLowerCase (blockers updateData)))
     && negb (Js.includes "none" (Js.toLowerCase (blockers updateData)))
  then Some "Blocked"
  else if Js.includes "complete" (Js.toLowerCase (todayPlans updateData))
          || Js.includes "finish" (Js.toLowerCase (todayPlans updateData))
          || Js.includes "completed" (Js.toLowerCase (yesterdayWork updateData))
  then Some "Done"
  else if (bool_decide (currentState = Some "New")
           || bool_decide (currentState = Some "To Do"))
          && Js.includes "started" (Js.toLowerCase (yesterdayWork updateData))
  then Some "Active"
  else None.

End WorkItems.

(* ===================================================================== *)
(** ** routes/meetings.js and routes/ai.js *)
(* ===================================================================== *)

(** The handlers proper: what runs once the validation middleware has let
    the request through.  A handler ends by [res.status(..).json(..)]; here
    it returns what it sends. *)
Module Routes.

Record Response (A : Type) := {
  statusCode : nat;
  success : bool;
  data : option A;
  message : option string
}.
Arguments statusCode {A} _.
Arguments success {A} _.
Arguments data {A} _.
Arguments message {A} _.

(** [res.status(code).json({ success: true, data, message })] *)
Definition ok {A} (code : nat) (payload : A) (text : option string) : Response A :=
  {| statusCode := code; success := true; data := Some payload; message := text |}.

(** [res.status(code).json({ success: false, message: error.message || fallback })] *)
Definition failed {A} (code : nat) (error fallback : string) : Response A :=
  {| statusCode := code; success := false; data := None;
     message := Some (Js.or_string (Some error) fallback) |}.


(** [GET /:meetingId] *)
Definition getMeeting (meetingId : string) : Async (Response Meeting.t) :=
  try_catch
    (meeting <- MeetingService.getMeeting meetingId ;;
     ret (ok 200 meeting None))
    (fun error =>
       console_error "Error fetching meeting:" error ;;
       ret (failed (if decide (error = "Meeting not found") then 404 else 500)
              error "Failed to fetch meeting")).







(** [POST /analyze-blockers] of the AI routes. *)
Definition postAnalyzeBlockers (blockers : list AIService.Blocker)
  : Async (Response AIService.BlockerAnalysis) :=
  try_catch
    (analysis <- AIService.analyzeBlockers blockers ;;
     ret (ok 200 analysis None))
    (fun error =>
       console_error "Error analyzing blockers:" error ;;
       ret (failed 500 error "Failed to analyze blockers")).

(** What [GET /health] of the AI routes answers. *)
Record Health := {
  h_statusCode : nat;
  h_success : bool;
  h_message : string;
  h_testResponse : option string;
  h_error : option string
}.

Definition getHealth : Async Health :=
  try_catch
    (testResponse <- AIService.generateResponse "Hello, are you working?" ScrumMaster ;;
     ret {| h_statusCode := 200; h_success := true;
            h_message := "AI service is healthy";
            h_testResponse := Some (Js.substring0 100 testResponse +:+ "...");
            h_error := None |})
    (fun error =>
       console_error "AI health check failed:" error ;;
       ret {| h_statusCode := 503; h_success := false;
              h_message := "AI service is not available";
              h_testResponse := None;
              h_error := Some error |}).

End Routes.

(* ===================================================================== *)
(** ** Running the methods *)
(* ===================================================================== *)

(** What happens to the process: the public operations of the service, the
    two triggers, and the clock reaching an instant. *)
Inductive Op :=
| ScheduleMeeting (uuid : string) (meetingData : MeetingData.t)
| StartMeeting (meetingId : string)
| JoinMeeting (meetingId participantName : string)
| SubmitStandupResponse (meetingId participantName response : string)
| EndMeeting (meetingId : string)
| CancelMeeting (meetingId : string)
| FireTimer (n : nat)
| CronTick (meetingId : string)
| ClockAt (t : Instant).

Definition perform (op : Op) : Async unit :=
  match op with
  | ScheduleMeeting uuid meetingData => MeetingService.scheduleMeeting uuid meetingData ;; ret tt
  | StartMeeting meetingId => MeetingService.startMeeting meetingId ;; ret tt
  | JoinMeeting meetingId participantName =>
      MeetingService.joinMeeting meetingId participantName ;; ret tt
  | SubmitStandupResponse meetingId participantName response =>
      MeetingService.submitStandupResponse meetingId participantName response ;; ret tt
  | EndMeeting meetingId => MeetingService.endMeeting meetingId ;; ret tt
  | CancelMeeting meetingId => MeetingService.cancelMeeting meetingId ;; ret tt
  | FireTimer n => MeetingService.fireTimer n
  | CronTick meetingId => MeetingService.cronTick meetingId
  | ClockAt t => modify (set_now t)
  end.

(** *** One method at a time

    [finish o n s] runs a method to its end with nothing else touching the
    world while it is suspended; [o k c] is how the collaborators settle the
    [k]th awaited call [c].  A [Step] is a finite tree, so every method
    finishes. *)
Fixpoint finish {A} (o : nat -> Call -> Reply) (n : nat) (s : Step A) : World * Result A :=
  match s with
  | Done w r => (w, r)
  | Await w c k => finish o (S n) (k (o n c) w)
  end.

(** [holds_if P s Q]: whenever the collaborators settle each call [c] with a
    reply [r] such that [P c r], the method [s] run on its own ends in a
    world and result that satisfy [Q]. *)
Fixpoint holds_if {A} (P : Call -> Reply -> Prop) (s : Step A)
    (Q : World -> Result A -> Prop) : Prop :=
  match s with
  | Done w r => Q w r
  | Await w c k => forall r, P c r -> holds_if P (k r w) Q
  end.

(** However the collaborators settle. *)
Definition any_reply (c : Call) (r : Reply) : Prop := True.

Abbreviation holds := (holds_if any_reply).

(** The process at start-up. *)
Definition boot (t : Instant) (client : bool) (lead : option string) : World :=
  {| now := t; openAIClient := client; TEAM_LEAD_EMAIL := lead;
     meetings := ∅; activeSessions := ∅; scheduledJobs := ∅; timers := [];
     sessionObjs := ∅; arrayObjs := ∅; nextLoc := 0%nat; console := [] |}.

(** [uuidv4()] does not repeat an identifier. *)
Definition allowed (w : World) (op : Op) : Prop :=
  match op with
  | ScheduleMeeting uuid _ => meetings w !! uuid = None
  | _ => True
  end.

(** The states the process reaches when operations are served one at a
    time, each running to its end before the next begins. *)
Inductive reachable : World -> Prop :=
| reachable_boot t client lead : reachable (boot t client lead)
| reachable_op w op o :
    reachable w -> allowed w op -> reachable (finish o 0 (perform op w)).1.

(** *** Interleaved methods

    Node's event loop runs one callback at a time, but a method suspended at
    an await leaves the loop free for other requests, and resumes later on
    the world they left. *)
Module EventLoop.












End EventLoop.

(* ===================================================================== *)
(** ** Properties of states *)
(* ===================================================================== *)

Import AIService MeetingService.

(** Two worlds that differ at most in what was written to the console. *)
Definition console_only (w w' : World) : Prop :=
  exists c, w' = set_console (fun _ => c) w.

(** The status of a meeting of the registry. *)
Definition status_of (w : World) (meetingId : string) : option Status :=
  Meeting.status <$> meetings w !! meetingId.

(** *** The response table and the stand-ups of a session *)

(** [responses[i]] is populated. *)
Definition populated (s : Session.t) (i : nat) : Prop :=
  is_Some (Js.array_get i (Session.responses s)).

(** The stand-up of participant [p] has [isComplete] true. *)
Definition standupComplete (s : Session.t) (p : string) : Prop :=
  exists sub, Session.activeStandupSessions s !! p = Some sub
              /\ Js.truthy (Standup.isComplete sub) = true.

(** The table mirrors completion, slot by slot. *)
Definition table_mirrors_completion (s : Session.t) : Prop :=
  forall i p, Session.participants s !! i = Some p ->
              (populated s i <-> standupComplete s p).

(** What the code maintains instead.  A complete stand-up has its answers
    array in the slot of the first index of its participant; a populated
    slot sits at the first index of its participant, who has a stand-up, and
    that stand-up is complete if the slot holds its answers array. *)
Definition complete_then_row (s : Session.t) : Prop :=
  forall p sub,
    Session.activeStandupSessions s !! p = Some sub ->
    Js.truthy (Standup.isComplete sub) = true ->
    exists i, Js.indexOf p (Session.participants s) = Some i
              /\ Js.array_get i (Session.responses s) = Some (Standup.responses sub).

Definition row_then_first_index (s : Session.t) : Prop :=
  forall i a,
    Js.array_get i (Session.responses s) = Some a ->
    exists p sub,
      Session.participants s !! i = Some p
      /\ Js.indexOf p (Session.participants s) = Some i
      /\ Session.activeStandupSessions s !! p = Some sub
      /\ (Standup.responses sub = a -> Js.truthy (Standup.isComplete sub) = true).

(** A stand-up is complete exactly from its third answer on, and belongs to
    a listed participant. *)
Definition standups_sound (s : Session.t) : Prop :=
  forall p sub,
    Session.activeStandupSessions s !! p = Some sub ->
    p ∈ Session.participants s
    /\ Js.truthy (Standup.isComplete sub) = (3 <=? Standup.currentQuestionIndex sub)%nat.

(** The three properties of a session object together. *)
Definition session_ok (s : Session.t) : Prop :=
  standups_sound s /\ complete_then_row s /\ row_then_first_index s.

(** The invariant of the process served one operation at a time. *)
Record wf (w : World) : Prop := {
  wf_active : forall meetingId l,
    activeSessions w !! meetingId = Some l ->
    exists s, sessionObjs w !! l = Some s /\ Session.meetingId s = meetingId;
  wf_meeting : forall l s,
    sessionObjs w !! l = Some s ->
    exists m, meetings w !! Session.meetingId s = Some m
              /\ Session.participants s = Meeting.participants m;
  wf_alloc : forall l s, sessionObjs w !! l = Some s -> (l < nextLoc w)%nat;
  wf_rows_alloc : forall l s i a,
    sessionObjs w !! l = Some s ->
    Js.array_get i (Session.responses s) = Some a -> (a < nextLoc w)%nat;
  wf_answers_alloc : forall l s p sub,
    sessionObjs w !! l = Some s ->
    Session.activeStandupSessions s !! p = Some sub -> (Standup.responses sub < nextLoc w)%nat;
  wf_session : forall l s, sessionObjs w !! l = Some s -> session_ok s
}.

(** *** What the operations write *)

(** Step 1 of [endMeeting] on a meeting, at instant [t], for session [s]. *)
Definition completedAt (t : Instant) (s : Session.t) (m : Meeting.t) : Meeting.t :=
  Meeting.with_duration (Js.round_minutes (t - Session.startTime s))
    (Meeting.with_endedAt t (Meeting.with_status Completed m)).

(** The first statements of [startMeeting] on a meeting, at instant [t]. *)
Definition startedAt (t : Instant) (m : Meeting.t) : Meeting.t :=
  Meeting.with_startedAt t (Meeting.with_status InProgress m).

(** The session object [startMeeting] builds. *)
Definition newSession (t : Instant) (meetingId : string) (m : Meeting.t) : Session.t :=
  {| Session.meetingId := meetingId;
     Session.participants := Meeting.participants m;
     Session.responses := [];
     Session.currentParticipantIndex := 0;
     Session.activeStandupSessions := ∅;
     Session.startTime := t;
     Session.isVirtualScrumMaster := Meeting.isVirtualScrumMaster m |}.

(** The last entry of the console is the error [prefix error]. *)
Definition logged_error (w : World) (prefix error : string) : Prop :=
  exists c, console w = c ++ [(LError, prefix +:+ " " +:+ error)].

(** Conditions on how the collaborators settle. *)
Definition fulfilled (r : Reply) : Prop := exists content, r = Fulfilled content.
Definition rejected (r : Reply) : Prop := exists error, r = Rejected error.

(** The summary mail and the task synchronisation succeed. *)
Definition mail_and_sync_succeed (c : Call) (r : Reply) : Prop :=
  match c with
  | SendEmail MeetingSummary _ _ | UpdateTasks _ => fulfilled r
  | _ => True
  end.

(** The summary mail fails. *)
Definition summary_mail_fails (c : Call) (r : Reply) : Prop :=
  match c with
  | SendEmail MeetingSummary _ _ => rejected r
  | _ => True
  end.


(** The notification mail fails. *)
Definition notification_fails (c : Call) (r : Reply) : Prop :=
  match c with
  | SendEmail MeetingNotification _ _ => rejected r
  | _ => True
  end.

(** What [notifyParticipants] then logs. *)
Definition notification_error : Level * string :=
  (LError, "Error notifying participants: Failed to send meeting notification").

(** The language model answers [content]. *)
Definition model_says (content : string) (c : Call) (r : Reply) : Prop :=
  match c with
  | GetChatCompletions _ _ => r = Fulfilled (Some content)
  | _ => True
  end.

(** *** What a submission writes *)

(** The answer [processStandupResponse] stores for question [k]. *)
Definition answerTo (sub : Standup.t) (k : nat) (response : string) (t : Instant) : Answer.t :=
  {| Answer.question := Standup.questions sub !! k;
     Answer.answer := response;
     Answer.timestamp := t |}.

(** The world after [submitStandupResponse] has stored an answer to one of
    the first two questions, acknowledged by [ack]. *)
Definition answeredWorld (w : World) (l : loc) (p : string) (sub : Standup.t)
    (response ack : string) : World :=
  let k := Standup.currentQuestionIndex sub in
  set_sessionObjs (alter (setStandup p (answered sub k ack)) l)
    (set_arrayObjs (alter (Js.array_set k (answerTo sub k response (now w)))
                      (Standup.responses sub)) w).

(** The world after it has stored a later answer and assigned the row. *)
Definition completedWorld (w : World) (l : loc) (p : string) (sub : Standup.t)
    (response ack : string) : World :=
  let k := Standup.currentQuestionIndex sub in
  set_sessionObjs
    (alter (fun s => storeResponses p (Standup.responses sub)
                       (setStandup p (answered sub k ack) s)) l)
    (set_arrayObjs (alter (Js.array_set k (answerTo sub k response (now w)))
                      (Standup.responses sub)) w).

(** What [submitStandupResponse] returns for an answer that completes. *)
Definition completionData (ack : string) : ResponseData :=
  {| rd_acknowledgment := Some ack;
     rd_isComplete := Some true;
     rd_nextQuestion := None;
     rd_completionMessage := Some completionMessage |}.

(** The session object after [submitStandupResponse] has recorded an answer
    of the stand-up [sub], acknowledged by [ack]. *)
Definition recorded (p : string) (sub : Standup.t) (ack : string) (s : Session.t)
  : Session.t :=
  let updated := answered sub (Standup.currentQuestionIndex sub) ack in
  if (Standup.currentQuestionIndex sub <? 2)%nat then setStandup p updated s
  else storeResponses p (Standup.responses sub) (setStandup p updated s).

(** *** The life of a session object *)

(** What can happen to a session object: a participant joins and gets a
    new answers array, answers one of the first two questions, or gives a
    later answer. *)
Inductive session_step (s : Session.t) : Session.t -> Prop :=
| step_join p t a :
    Session.isVirtualScrumMaster s = true ->
    p ∈ Session.participants s ->
    (forall q sub, Session.activeStandupSessions s !! q = Some sub ->
                   Standup.responses sub <> a) ->
    session_step s (setStandup p (freshStandup t a p) s)
| step_answer p sub ack :
    Session.activeStandupSessions s !! p = Some sub ->
    (Standup.currentQuestionIndex sub < 2)%nat ->
    session_step s (setStandup p (answered sub (Standup.currentQuestionIndex sub) ack) s)
| step_complete p sub ack :
    Session.activeStandupSessions s !! p = Some sub ->
    (2 <= Standup.currentQuestionIndex sub)%nat ->
    session_step s
      (storeResponses p (Standup.responses sub)
         (setStandup p (answered sub (Standup.currentQuestionIndex sub) ack) s)).

(** Every session object of [w'] was just created by [startMeeting], or is
    an object of [w], unchanged or one step further. *)
Definition sessions_evolve (w w' : World) : Prop :=
  forall l s',
    sessionObjs w' !! l = Some s' ->
    (exists t meetingId m, s' = newSession t meetingId m)
    \/ (exists s, sessionObjs w !! l = Some s /\ (s' = s \/ session_step s s')).

(* ===================================================================== *)
(** ** Scenarios *)
(* ===================================================================== *)

(** Serving a list of operations one at a time, each to its end. *)
Fixpoint serve (o : nat -> Call -> Reply) (ops : list Op) (w : World) : World :=
  match ops with
  | [] => w
  | op :: rest => serve o rest (finish o 0 (perform op w)).1
  end.

(** Along the way every drawn identifier is new. *)
Fixpoint fresh_uuids (o : nat -> Call -> Reply) (ops : list Op) (w : World) : Prop :=
  match ops with
  | [] => True
  | op :: rest => allowed w op /\ fresh_uuids o rest (finish o 0 (perform op w)).1
  end.

(** Collaborators that always succeed, and collaborators whose mail
    transport refuses the summary. *)
Definition always_ok : nat -> Call -> Reply := fun _ _ => Fulfilled (Some "ok").


(** A one-time stand-up with the virtual Scrum Master, and a daily one. *)
Definition standup (participants : list string) (scheduledTime : Instant) : MeetingData.t :=
  {| MeetingData.title := Some "Standup";
     MeetingData.participants := Some participants;
     MeetingData.scheduledTime := scheduledTime;
     MeetingData.duration := None;
     MeetingData.isVirtualScrumMaster := Some true;
     MeetingData.timezone := None;
     MeetingData.recurrence := Some "none";
     MeetingData.createdBy := Some "system" |}.


(** The process boots at instant 0 with the language model configured. *)
Definition w_boot : World := boot 0 true None.

(** A meeting of alice and bob is scheduled for instant 1000 and its timer
    fires then: the meeting is in progress with a live session. *)
Definition started_ops : list Op :=
  [ ScheduleMeeting "m1" (standup ["alice"; "bob"] 1000); ClockAt 1000; FireTimer 0 ].
Definition w_started : World := serve always_ok started_ops w_boot.

(** Both have joined; alice has given her first answer. *)
Definition answering_ops : list Op :=
  started_ops ++
  [ JoinMeeting "m1" "alice"; JoinMeeting "m1" "bob";
    SubmitStandupResponse "m1" "alice" "the parser" ].
Definition w_answering : World := serve always_ok answering_ops w_boot.

(** Alice has given her three answers; bob none. *)
Definition alice_done_ops : list Op :=
  answering_ops ++
  [ SubmitStandupResponse "m1" "alice" "the printer";
    SubmitStandupResponse "m1" "alice" "none" ].
Definition w_alice_done : World := serve always_ok alice_done_ops w_boot.

(** The meeting was ended by hand and is completed. *)
Definition w_completed : World := serve always_ok [EndMeeting "m1"] w_started.

(** The meeting was cancelled while in progress. *)
Definition w_cancelled : World := serve always_ok [CancelMeeting "m1"] w_started.

(** A meeting whose participant list names alice twice; she has given her
    three answers. *)
Definition twice_ops : list Op :=
  [ ScheduleMeeting "m1" (standup ["alice"; "alice"] 1000); ClockAt 1000; FireTimer 0;
    JoinMeeting "m1" "alice";
    SubmitStandupResponse "m1" "alice" "the parser";
    SubmitStandupResponse "m1" "alice" "the printer";
    SubmitStandupResponse "m1" "alice" "none" ].
Definition w_twice : World := serve always_ok twice_ops w_boot.

(** Alice has given her three answers and joins again. *)
Definition rejoin_ops : list Op := alice_done_ops ++ [ JoinMeeting "m1" "alice" ].
Definition w_rejoined : World := serve always_ok rejoin_ops w_boot.




(** Alice has given her three answers and bob his first two: bob's next
    answer is the last one of the meeting. *)
Definition last_answer_ops : list Op :=
  alice_done_ops ++
  [ SubmitStandupResponse "m1" "bob" "reviews";
    SubmitStandupResponse "m1" "bob" "the release" ].
Definition w_last_answer : World := serve always_ok last_answer_ops w_boot.

(** A stand-up without the virtual Scrum Master, started by its timer. *)
Definition plainStandup (participants : list string) (scheduledTime : Instant)
  : MeetingData.t :=
  {| MeetingData.title := Some "Standup";
     MeetingData.participants := Some participants;
     MeetingData.scheduledTime := scheduledTime;
     MeetingData.duration := None;
     MeetingData.isVirtualScrumMaster := Some false;
     MeetingData.timezone := None;
     MeetingData.recurrence := Some "none";
     MeetingData.createdBy := Some "system" |}.

Definition w_plain : World :=
  serve always_ok
    [ ScheduleMeeting "m1" (plainStandup ["alice"; "bob"] 1000); ClockAt 1000; FireTimer 0 ]
    w_boot.

(** A response table: the first participant has no blocker, the second has
    no row, the third reports a red build. *)
Definition threeAnswers (yesterday today blockers : string) : list (option Answer.t) :=
  [ Some {| Answer.question := Some "yesterday"; Answer.answer := yesterday;
            Answer.timestamp := 0 |};
    Some {| Answer.question := Some "today"; Answer.answer := today;
            Answer.timestamp := 0 |};
    Some {| Answer.question := Some "blockers"; Answer.answer := blockers;
            Answer.timestamp := 0 |} ].

Definition exampleTable : list (option (list (option Answer.t))) :=
  [ Some (threeAnswers "the parser" "the printer" "none");
    None;
    Some (threeAnswers "reviews" "the release" "The build is red") ].

Definition redBuild : AIService.Blocker :=
  {| AIService.b_participant := "Participant 3";
     AIService.b_blocker := "The build is red";
     AIService.b_timestamp := 0 |}.

Definition urgentOutage : AIService.Blocker :=
  {| AIService.b_participant := "Participant 1";
     AIService.b_blocker := "Urgent: the database is down";
     AIService.b_timestamp := 0 |}.

(* ===================================================================== *)
(** ** Reasoning about methods run on their own *)
(* ===================================================================== *)

Lemma holds_if_finish {A} (P : Call -> Reply -> Prop) (s : Step A) Q o n :
  (forall k c, P c (o k c)) ->
  holds_if P s Q -> Q (finish o n s).1 (finish o n s).2.
Proof.
  intros Ho. revert n. induction s as [w r|w c k IH]; intros n H; simpl in *; [done|].
  apply IH, H, Ho.
Qed.

Lemma holds_finish {A} (s : Step A) Q o n :
  holds s Q -> Q (finish o n s).1 (finish o n s).2.
Proof. by apply holds_if_finish. Qed.

Lemma holds_mono {A} P (s : Step A) (Q Q' : World -> Result A -> Prop) :
  (forall w r, Q w r -> Q' w r) -> holds_if P s Q -> holds_if P s Q'.
Proof.
  intros HQ. induction s as [w r|w c k IH]; simpl; [apply HQ|].
  intros H r Hr. by apply IH, H.
Qed.

Lemma holds_weaken {A} (P : Call -> Reply -> Prop) (s : Step A) Q :
  holds s Q -> holds_if P s Q.
Proof.
  induction s as [w r|w c k IH]; simpl; [done|].
  intros H r _. by apply IH, H.
Qed.

Lemma holds_bind {A B} P (s : Step A) (f : A -> Async B) Q :
  holds_if P s (fun w r =>
    match r with Ok a => holds_if P (f a w) Q | Err e => Q w (Err e) end) ->
  holds_if P (bind_step s f) Q.
Proof.
  induction s as [w [a|e]|w c k IH]; simpl; [done..|].
  intros H r Hr. by apply IH, H.
Qed.

Lemma holds_catch {A} P (s : Step A) (h : string -> Async A) Q :
  holds_if P s (fun w r =>
    match r with Ok a => Q w (Ok a) | Err e => holds_if P (h e w) Q end) ->
  holds_if P (catch_step s h) Q.
Proof.
  induction s as [w [a|e]|w c k IH]; simpl; [done..|].
  intros H r Hr. by apply IH, H.
Qed.

Lemma console_only_refl w : console_only w w.
Proof. exists (console w). by destruct w. Qed.

(** Closes [console_only] goals once the worlds are explicit. *)
Ltac console_only :=
  repeat match goal with H : console_only _ _ |- _ => destruct H as [? ->] end;
  first [ apply console_only_refl | eexists; reflexivity ].

(** One step of a sequence: use the specification of the method in front. *)
Ltac step_with spec :=
  first [ apply holds_catch, holds_bind | apply holds_bind | apply holds_catch ];
  eapply holds_mono; [ | first [ apply spec | apply holds_weaken, spec ] ].

(* ===================================================================== *)
(** ** The collaborators only write to the console *)
(* ===================================================================== *)

Lemma generateResponse_spec prompt role w :
  holds (generateResponse prompt role w)
    (fun w' r => console_only w w' /\ exists text, r = Ok text).
Proof.
  unfold generateResponse, try_catch, bind, get. cbn.
  destruct (openAIClient w); cbn.
  - intros [content|error] _; cbn; (split; [console_only | eauto]).
  - split; [console_only | eauto].
Qed.

#[local] Arguments generateResponse : simpl never.

Lemma summarizeMeeting_spec md w :
  holds (summarizeMeeting md w)
    (fun w' r => console_only w w' /\ exists summary, r = Ok summary).
Proof.
  unfold summarizeMeeting, try_catch, bind. cbn.
  step_with generateResponse_spec.
  intros w' r [Hc [text ->]]. cbn. split; [done|eauto].
Qed.

Lemma analyzeBlockers_spec blockers w :
  holds (analyzeBlockers blockers w)
    (fun w' r => console_only w w' /\ exists analysis, r = Ok analysis).
Proof.
  unfold analyzeBlockers, try_catch, bind. destruct blockers as [|b bs]; cbn.
  - split; [console_only|eauto].
  - step_with generateResponse_spec.
    intros w' r [Hc [text ->]]. cbn. split; [done|eauto].
Qed.

(** The services that await external I/O: the outcome tells how the call
    was settled. *)
Lemma sendEmail_spec P kind recipients title w :
  holds_if P (EmailService.sendEmail kind recipients title w)
    (fun w' r =>
       console_only w w'
       /\ ((r = Ok tt /\ exists x, P (SendEmail kind recipients title) (Fulfilled x))
           \/ (r = Err "Failed to send email"
               /\ exists e, P (SendEmail kind recipients title) (Rejected e)))).
Proof.
  unfold EmailService.sendEmail, try_catch, bind. cbn.
  intros [content|error] HP; cbn; (split; [console_only|eauto]).
Qed.

#[local] Arguments EmailService.sendEmail : simpl never.

Lemma sendMeetingSummary_spec P participants title w :
  holds_if P (EmailService.sendMeetingSummary participants title w)
    (fun w' r =>
       console_only w w'
       /\ ((r = Ok tt
            /\ exists x, P (SendEmail MeetingSummary participants title) (Fulfilled x))
           \/ (r = Err "Failed to send meeting summary"
               /\ exists e, P (SendEmail MeetingSummary participants title) (Rejected e)))).
Proof.
  unfold EmailService.sendMeetingSummary, try_catch, bind.
  step_with sendEmail_spec.
  intros w' r [Hc [[-> HP]|[-> HP]]]; cbn; (split; [console_only|eauto]).
Qed.

Lemma sendBlockerAlert_spec recipients title w :
  holds (EmailService.sendBlockerAlert recipients title w)
    (fun w' r => console_only w w'
                 /\ (r = Ok tt \/ r = Err "Failed to send blocker alert")).
Proof.
  unfold EmailService.sendBlockerAlert, try_catch, bind.
  step_with sendEmail_spec.
  intros w' r [Hc [[-> _]|[-> _]]]; cbn; (split; [console_only|eauto]).
Qed.

Lemma sendMeetingNotification_spec participants title w :
  holds (EmailService.sendMeetingNotification participants title w)
    (fun w' r => console_only w w'
                 /\ (r = Ok tt \/ r = Err "Failed to send meeting notification")).
Proof.
  unfold EmailService.sendMeetingNotification, try_catch, bind.
  step_with sendEmail_spec.
  intros w' r [Hc [[-> _]|[-> _]]]; cbn; (split; [console_only|eauto]).
Qed.

Lemma updateTasksFromMeeting_spec P md w :
  holds_if P (DevOpsService.updateTasksFromMeeting md w)
    (fun w' r =>
       console_only w w'
       /\ ((r = Ok tt /\ exists x, P (UpdateTasks (mr_id md)) (Fulfilled x))
           \/ (r = Err "Failed to update Azure DevOps tasks"
               /\ exists e, P (UpdateTasks (mr_id md)) (Rejected e)))).
Proof.
  unfold DevOpsService.updateTasksFromMeeting, try_catch, bind. cbn.
  intros [content|error] HP; cbn; (split; [console_only|eauto]).
Qed.

#[local] Arguments summarizeMeeting : simpl never.
#[local] Arguments analyzeBlockers : simpl never.
#[local] Arguments EmailService.sendMeetingSummary : simpl never.
#[local] Arguments EmailService.sendBlockerAlert : simpl never.
#[local] Arguments EmailService.sendMeetingNotification : simpl never.
#[local] Arguments DevOpsService.updateTasksFromMeeting : simpl never.

Lemma notifyParticipants_spec m subject w :
  holds (notifyParticipants m subject w)
    (fun w' r => console_only w w' /\ r = Ok tt).
Proof.
  unfold notifyParticipants, try_catch.
  step_with sendMeetingNotification_spec.
  intros w' r [Hc [->| ->]]; cbn; (split; [console_only|eauto]).
Qed.

Lemma alertTeamLead_spec meetingId analysis w :
  holds (alertTeamLead meetingId analysis w)
    (fun w' r => console_only w w' /\ r = Ok tt).
Proof.
  unfold alertTeamLead, try_catch, bind. cbn.
  destruct (meetings w !! meetingId) as [m|]; cbn.
  - step_with sendBlockerAlert_spec.
    intros w' r [Hc [->| ->]]; cbn; (split; [console_only|eauto]).
  - split; [console_only|eauto].
Qed.

#[local] Arguments notifyParticipants : simpl never.
#[local] Arguments alertTeamLead : simpl never.

(* ===================================================================== *)
(** ** What each operation does to the world *)
(* ===================================================================== *)

(** Without a live session or without the meeting, [endMeeting] fails and
    writes nothing but the console. *)
Lemma endMeeting_not_found P meetingId w :
  session_of w meetingId = None \/ meetings w !! meetingId = None ->
  holds_if P (endMeeting meetingId w)
    (fun w' r => r = Err "Failed to end meeting" /\ console_only w w'
                 /\ logged_error w' "Error ending meeting:" "Meeting or session not found").
Proof.
  intros H. unfold endMeeting, try_catch, bind, get. cbn.
  unfold session_of in H.
  destruct (activeSessions w !! meetingId) as [l|] eqn:Hl; cbn in *.
  - destruct (sessionObjs w !! l) as [s|] eqn:Hs; cbn.
    + destruct (meetings w !! meetingId) as [m|] eqn:Hm; cbn.
      * exfalso. destruct H; congruence.
      * split; [done|split; [console_only|by eexists]].
    + destruct (meetings w !! meetingId) as [m|] eqn:Hm; cbn;
        (split; [done|split; [console_only|by eexists]]).
  - destruct (meetings w !! meetingId) as [m|] eqn:Hm; cbn;
      (split; [done|split; [console_only|by eexists]]).
Qed.

(** With a live session, [endMeeting] stamps the meeting and then either
    reaches its last step and discards the session, or fails because the
    summary mail or the task synchronisation was rejected, leaving the
    session in place. *)
Lemma endMeeting_spec P meetingId w l s m :
  activeSessions w !! meetingId = Some l ->
  sessionObjs w !! l = Some s ->
  meetings w !! meetingId = Some m ->
  let w1 := set_meetings (alter (completedAt (now w) s) meetingId) w in
  holds_if P (endMeeting meetingId w)
    (fun w' r =>
       (exists res, r = Ok res
          /\ console_only (set_activeSessions (delete meetingId) w1) w'
          /\ (exists x, P (SendEmail MeetingSummary (Meeting.participants m)
                             (Meeting.title m)) (Fulfilled x))
          /\ (exists x, P (UpdateTasks meetingId) (Fulfilled x)))
       \/ (r = Err "Failed to end meeting"
           /\ console_only w1 w'
           /\ ((logged_error w' "Error ending meeting:" "Failed to send meeting summary"
                /\ exists e, P (SendEmail MeetingSummary (Meeting.participants m)
                                  (Meeting.title m)) (Rejected e))
               \/ (logged_error w' "Error ending meeting:"
                     "Failed to update Azure DevOps tasks"
                   /\ (exists x, P (SendEmail MeetingSummary (Meeting.participants m)
                                      (Meeting.title m)) (Fulfilled x))
                   /\ exists e, P (UpdateTasks meetingId) (Rejected e))))).
Proof.
  intros Hl Hs Hm w1. unfold endMeeting, try_catch, bind, get. cbn.
  rewrite Hl. cbn. rewrite Hs, Hm. cbn.
  step_with summarizeMeeting_spec.
  intros w2 r [Hc2 [summary ->]].
  step_with analyzeBlockers_spec.
  intros w3 r [Hc3 [analysis ->]].
  step_with sendMeetingSummary_spec.
  intros w4 r [Hc4 [[-> Hmail]|[-> Hmail]]]; cbn.
  - apply holds_bind.
    eapply holds_mono;
      [|instantiate (1 := fun w' r => console_only w4 w' /\ r = Ok tt)].
    2:{ destruct (ba_requiresEscalation analysis).
        - apply holds_weaken, alertTeamLead_spec.
        - cbn. split; [console_only|done]. }
    intros w5 r [Hc5 ->].
    step_with updateTasksFromMeeting_spec.
    intros w6 r [Hc6 [[-> Hsync]|[-> Hsync]]]; cbn.
    + left. eexists. split; [done|]. split; [console_only|]. done.
    + right. split; [done|]. split; [console_only|]. right.
      split; [|done]. console_only.
  - right. split; [done|]. split; [console_only|]. left.
    split; [|done]. console_only.
Qed.
(* ===================================================================== *)
(** ** JavaScript arrays *)
(* ===================================================================== *)

Section arrays.
Context {A : Type}.
Implicit Types (arr : list (option A)) (v : A) (i j : nat).

Lemma array_get_set_eq arr i v : Js.array_get i (Js.array_set i v arr) = Some v.
Proof.
  unfold Js.array_get, Js.array_set.
  destruct (i <? length arr)%nat eqn:Hi.
  - apply Nat.ltb_lt in Hi. by rewrite list_lookup_insert_eq.
  - apply Nat.ltb_ge in Hi.
    rewrite lookup_app_r by lia.
    rewrite lookup_app_r by (rewrite length_replicate; lia).
    rewrite length_replicate.
    by replace (i - length arr - (i - length arr))%nat with 0%nat by lia.
Qed.

Lemma array_get_set_ne arr i j v :
  i ≠ j -> Js.array_get j (Js.array_set i v arr) = Js.array_get j arr.
Proof.
  intros Hij. unfold Js.array_get, Js.array_set.
  destruct (i <? length arr)%nat eqn:Hi.
  - by rewrite list_lookup_insert_ne.
  - apply Nat.ltb_ge in Hi.
    destruct (decide (j < length arr)%nat) as [Hj|Hj].
    + by rewrite lookup_app_l.
    + rewrite (lookup_ge_None_2 arr j) by lia.
      rewrite lookup_app_r by lia.
      destruct (decide (j < i)%nat) as [Hji|Hji].
      * rewrite lookup_app_l by (rewrite length_replicate; lia).
        rewrite lookup_replicate_2 by lia. done.
      * rewrite lookup_app_r by (rewrite length_replicate; lia).
        rewrite length_replicate.
        rewrite lookup_ge_None_2; [done|]. simpl. lia.
Qed.

Lemma array_get_set arr i j v :
  Js.array_get j (Js.array_set i v arr)
  = if decide (i = j) then Some v else Js.array_get j arr.
Proof.
  case_decide as H; [subst; apply array_get_set_eq | by apply array_get_set_ne].
Qed.

End arrays.

Lemma indexOf_Some x l i :
  Js.indexOf x l = Some i -> l !! i = Some x.
Proof.
  revert i. induction l as [|y t IH]; intros i; simpl; [done|].
  case_decide as Hy; [intros [= <-]; by subst|].
  destruct (Js.indexOf x t) as [k|] eqn:Hk; simpl; [|done].
  intros [= <-]. simpl. by apply IH.
Qed.

Lemma indexOf_elem x l : x ∈ l -> is_Some (Js.indexOf x l).
Proof.
  induction l as [|y t IH]; simpl; [by intros ?%elem_of_nil|].
  intros [->|Hx]%elem_of_cons; case_decide; try done; try by eexists.
  destruct (IH Hx) as [k ->]. by eexists.
Qed.

Lemma array_includes_elem x l : Js.array_includes x l = true <-> x ∈ l.
Proof. unfold Js.array_includes. by rewrite bool_decide_eq_true. Qed.

(* ===================================================================== *)
(** ** The session object under join and submit *)
(* ===================================================================== *)

Lemma session_ok_new t meetingId m : session_ok (newSession t meetingId m).
Proof.
  split; [|split].
  - intros p sub H. cbn in H. by rewrite lookup_empty in H.
  - intros p sub H. cbn in H. by rewrite lookup_empty in H.
  - intros i a H. unfold Js.array_get in H. cbn in H. by rewrite lookup_nil in H.
Qed.

Lemma session_ok_join s p t l :
  session_ok s ->
  p ∈ Session.participants s ->
  (forall i a, Js.array_get i (Session.responses s) = Some a -> a ≠ l) ->
  session_ok (setStandup p (freshStandup t l p) s).
Proof.
  intros (Hsound & Hcomplete & Hrows) Hp Hfresh. split; [|split].
  - intros q sub. cbn. rewrite lookup_insert. case_decide as Hq.
    + intros [= <-]. by subst.
    + apply Hsound.
  - intros q sub. cbn. rewrite lookup_insert. case_decide as Hq.
    + by intros [= <-].
    + apply Hcomplete.
  - intros i a Ha. cbn in *.
    destruct (Hrows i a Ha) as (q & sub & Hq & Hidx & Hsub & Hdone).
    destruct (decide (p = q)) as [->|Hne].
    + exists q, (freshStandup t l q). rewrite lookup_insert_eq.
      repeat split; try done. cbn. intros <-. by destruct (Hfresh i l).
    + exists q, sub. by rewrite lookup_insert_ne.
Qed.

Lemma session_ok_answer s p sub ack :
  session_ok s ->
  Session.activeStandupSessions s !! p = Some sub ->
  (Standup.currentQuestionIndex sub < 2)%nat ->
  session_ok (setStandup p (answered sub (Standup.currentQuestionIndex sub) ack) s).
Proof.
  intros (Hsound & Hcomplete & Hrows) Hsub Hk.
  destruct (Hsound p sub Hsub) as [Hp Hflag]. split; [|split].
  - intros q sub'. cbn. rewrite lookup_insert. case_decide as Hq.
    + intros [= <-]. subst. split; [done|]. cbn.
      destruct (Standup.currentQuestionIndex sub) as [|[|[|k]]]; simpl; done || lia.
    + apply Hsound.
  - intros q sub'. cbn. rewrite lookup_insert. case_decide as Hq.
    + intros [= <-]. cbn. intros Hge.
      destruct (Standup.currentQuestionIndex sub) as [|[|k]]; [done|done|lia].
    + apply Hcomplete.
  - intros i a Ha. cbn in *.
    destruct (Hrows i a Ha) as (q & sub' & Hq & Hidx & Hsub' & Hdone).
    destruct (decide (p = q)) as [->|Hne].
    + exists q, (answered sub (Standup.currentQuestionIndex sub) ack).
      rewrite lookup_insert_eq. repeat split; try done. cbn. intros Ha'.
      simplify_eq. specialize (Hdone eq_refl). rewrite Hflag in Hdone.
      destruct (Standup.currentQuestionIndex sub) as [|[|k]]; [done|done|lia].
    + exists q, sub'. by rewrite lookup_insert_ne.
Qed.

Lemma session_ok_complete s p sub ack :
  session_ok s ->
  Session.activeStandupSessions s !! p = Some sub ->
  (2 <= Standup.currentQuestionIndex sub)%nat ->
  session_ok (storeResponses p (Standup.responses sub)
                (setStandup p (answered sub (Standup.currentQuestionIndex sub) ack) s)).
Proof.
  intros (Hsound & Hcomplete & Hrows) Hsub Hk.
  destruct (Hsound p sub Hsub) as [Hp Hflag].
  destruct (indexOf_elem _ _ Hp) as [i0 Hi0].
  pose proof (indexOf_Some _ _ _ Hi0) as Hat.
  unfold storeResponses. cbn. rewrite Hi0. split; [|split].
  - intros q sub'. cbn. rewrite lookup_insert. case_decide as Hq.
    + intros [= <-]. subst. split; [done|]. cbn.
      destruct (Standup.currentQuestionIndex sub) as [|[|[|k]]]; simpl; done || lia.
    + apply Hsound.
  - intros q sub'. cbn. rewrite lookup_insert. case_decide as Hq.
    + intros [= <-] _. subst. exists i0. split; [done|]. cbn. apply array_get_set_eq.
    + intros Hq' Hdone. destruct (Hcomplete q sub' Hq' Hdone) as (i & Hi & Hrow).
      exists i. split; [done|]. rewrite array_get_set_ne; [done|].
      intros <-. apply indexOf_Some in Hi. congruence.
  - intros i a. cbn. rewrite array_get_set. case_decide as Hi.
    + intros [= <-]. subst i.
      exists p, (answered sub (Standup.currentQuestionIndex sub) ack).
      rewrite lookup_insert_eq. repeat split; try done. cbn. intros _.
      destruct (Standup.currentQuestionIndex sub) as [|[|k]]; [lia|lia|done].
    + intros Ha. destruct (Hrows i a Ha) as (q & sub' & Hq & Hidx & Hsub' & Hdone).
      exists q, sub'. rewrite lookup_insert_ne; [done|]. intros <-. congruence.
Qed.

(* ===================================================================== *)
(** ** The operations of the meeting service *)
(* ===================================================================== *)

Lemma startMeeting_not_found meetingId w :
  meetings w !! meetingId = None ->
  holds (startMeeting meetingId w)
    (fun w' r => r = Err "Failed to start meeting" /\ console_only w w').
Proof.
  intros Hm. unfold startMeeting, try_catch, bind, get. cbn. rewrite Hm. cbn.
  split; [done|console_only].
Qed.

Lemma startMeeting_spec meetingId w m :
  meetings w !! meetingId = Some m ->
  let w1 :=
    set_activeSessions (insert meetingId (nextLoc w))
      (set_sessionObjs (insert (nextLoc w) (newSession (now w) meetingId m))
         (set_nextLoc (S (nextLoc w))
            (set_meetings (alter (startedAt (now w)) meetingId) w))) in
  holds (startMeeting meetingId w)
    (fun w' r => r = Ok (nextLoc w) /\ console_only w1 w').
Proof.
  intros Hm w1. unfold startMeeting, try_catch, bind, get. cbn. rewrite Hm. cbn.
  step_with notifyParticipants_spec.
  intros w' r [Hc ->]. cbn. split; [done|console_only].
Qed.

Lemma cancelMeeting_not_found meetingId w :
  meetings w !! meetingId = None ->
  holds (cancelMeeting meetingId w)
    (fun w' r => r = Err "Failed to cancel meeting" /\ console_only w w').
Proof.
  intros Hm. unfold cancelMeeting, try_catch, bind, get. cbn. rewrite Hm. cbn.
  split; [done|console_only].
Qed.

Lemma cancelMeeting_spec meetingId w m :
  meetings w !! meetingId = Some m ->
  let w1 :=
    set_scheduledJobs (delete meetingId)
      (set_meetings (alter (Meeting.with_status Cancelled) meetingId) w) in
  holds (cancelMeeting meetingId w)
    (fun w' r => r = Ok (Meeting.with_status Cancelled m) /\ console_only w1 w').
Proof.
  intros Hm w1. unfold cancelMeeting, try_catch, bind, get. cbn. rewrite Hm. cbn.
  assert (Hgone : scheduledJobs w !! meetingId = None ->
                  delete meetingId (scheduledJobs w) = scheduledJobs w)
    by apply delete_id.
  destruct (scheduledJobs w !! meetingId) as [job|]; cbn.
  - step_with notifyParticipants_spec.
    intros w' r [Hc ->]. cbn. unfold getMeeting, bind, get. destruct Hc as [c ->]. cbn.
    rewrite lookup_alter_eq, Hm. cbn. split; [done|console_only].
  - step_with notifyParticipants_spec.
    intros w' r [Hc ->]. cbn. unfold getMeeting, bind, get. destruct Hc as [c ->]. cbn.
    rewrite lookup_alter_eq, Hm. cbn. split; [done|].
    subst w1. unfold set_scheduledJobs. cbn. rewrite Hgone by done. console_only.
Qed.

(* ===================================================================== *)
(** ** The invariant *)
(* ===================================================================== *)

Lemma wf_boot t client lead : wf (boot t client lead).
Proof.
  split; cbn; intros *; try (by rewrite lookup_empty).
Qed.

(** The invariant reads four fields of the world. *)
Lemma wf_same w w' :
  meetings w' = meetings w ->
  activeSessions w' = activeSessions w ->
  sessionObjs w' = sessionObjs w ->
  nextLoc w' = nextLoc w ->
  wf w -> wf w'.
Proof.
  intros Hm Ha Ho Hn [H1 H2 H3 H4 H5 H6].
  split; rewrite ?Hm, ?Ha, ?Ho, ?Hn; done.
Qed.

Lemma wf_console_only w w' : console_only w w' -> wf w -> wf w'.
Proof. intros [c ->]. by apply wf_same. Qed.

Lemma wf_alter_meeting w f meetingId :
  (forall m, Meeting.participants (f m) = Meeting.participants m) ->
  wf w -> wf (set_meetings (alter f meetingId) w).
Proof.
  intros Hf [H1 H2 H3 H4 H5 H6]. split; cbn; try done.
  intros l s Hs. destruct (H2 l s Hs) as (m & Hm & Hp).
  destruct (decide (meetingId = Session.meetingId s)) as [->|Hne].
  - exists (f m). rewrite lookup_alter_eq, Hm. cbn. by rewrite Hf.
  - exists m. by rewrite lookup_alter_ne.
Qed.

Lemma wf_insert_meeting w uuid m :
  meetings w !! uuid = None ->
  wf w -> wf (set_meetings (insert uuid m) w).
Proof.
  intros Hfresh [H1 H2 H3 H4 H5 H6]. split; cbn; try done.
  intros l s Hs. destruct (H2 l s Hs) as (m' & Hm & Hp).
  exists m'. rewrite lookup_insert_ne; [done|]. intros Heq. rewrite Heq in Hfresh. congruence.
Qed.

Lemma wf_delete_session w meetingId :
  wf w -> wf (set_activeSessions (delete meetingId) w).
Proof.
  intros [H1 H2 H3 H4 H5 H6]. split; cbn; try done.
  intros i l. rewrite lookup_delete. case_decide; [done|]. apply H1.
Qed.

Lemma wf_new_session w meetingId m t :
  meetings w !! meetingId = Some m ->
  wf w ->
  wf (set_activeSessions (insert meetingId (nextLoc w))
        (set_sessionObjs (insert (nextLoc w) (newSession t meetingId m))
           (set_nextLoc (S (nextLoc w)) w))).
Proof.
  intros Hm [H1 H2 H3 H4 H5 H6].
  assert (Hnone : sessionObjs w !! nextLoc w = None).
  { destruct (sessionObjs w !! nextLoc w) as [s|] eqn:Hs; [|done].
    apply H3 in Hs. lia. }
  split; cbn.
  - intros i l. rewrite lookup_insert. case_decide as Hi.
    + intros [= <-]. subst. exists (newSession t i m). by rewrite lookup_insert_eq.
    + intros Hl. destruct (H1 i l Hl) as (s & Hs & Hid). exists s.
      rewrite lookup_insert_ne; [done|]. intros <-. congruence.
  - intros l s. rewrite lookup_insert. case_decide as Hl.
    + intros [= <-]. by exists m.
    + apply H2.
  - intros l s. rewrite lookup_insert. case_decide as Hl.
    + intros _. lia.
    + intros Hs%H3. lia.
  - intros l s i a. rewrite lookup_insert. case_decide as Hl.
    + intros [= <-]. unfold Js.array_get. cbn. by rewrite lookup_nil.
    + intros Hs Ha. specialize (H4 l s i a Hs Ha). lia.
  - intros l s p sub. rewrite lookup_insert. case_decide as Hl.
    + intros [= <-]. cbn. by rewrite lookup_empty.
    + intros Hs Hp. specialize (H5 l s p sub Hs Hp). lia.
  - intros l s. rewrite lookup_insert. case_decide as Hl.
    + intros [= <-]. apply session_ok_new.
    + apply H6.
Qed.

(** Replacing a session object by one that keeps its identity and its
    participants. *)
Lemma wf_alter_session w l s (G : Session.t -> Session.t) n :
  sessionObjs w !! l = Some s ->
  Session.meetingId (G s) = Session.meetingId s ->
  Session.participants (G s) = Session.participants s ->
  (nextLoc w <= n)%nat ->
  (forall i a, Js.array_get i (Session.responses (G s)) = Some a -> (a < n)%nat) ->
  (forall p sub, Session.activeStandupSessions (G s) !! p = Some sub ->
                 (Standup.responses sub < n)%nat) ->
  session_ok (G s) ->
  wf w -> wf (set_sessionObjs (alter G l) (set_nextLoc n w)).
Proof.
  intros Hs Hid Hp Hn Hrows Hsubs Hok [H1 H2 H3 H4 H5 H6]. split; cbn.
  - intros i l' Hl'. destruct (H1 i l' Hl') as (s' & Hs' & Hi).
    destruct (decide (l = l')) as [<-|Hne].
    + exists (G s). rewrite lookup_alter_eq, Hs. cbn. split; [done|]. congruence.
    + exists s'. by rewrite lookup_alter_ne.
  - intros l' s'. rewrite lookup_alter. case_decide as Hl.
    + subst l'. rewrite Hs. cbn. intros [= <-]. rewrite Hid, Hp. by apply (H2 l).
    + apply H2.
  - intros l' s'. rewrite lookup_alter. case_decide as Hl.
    + subst l'. intros _. apply H3 in Hs. lia.
    + intros Hs'%H3. lia.
  - intros l' s' i a. rewrite lookup_alter. case_decide as Hl.
    + subst l'. rewrite Hs. cbn. intros [= <-]. apply Hrows.
    + intros Hs' Ha. specialize (H4 l' s' i a Hs' Ha). lia.
  - intros l' s' p sub. rewrite lookup_alter. case_decide as Hl.
    + subst l'. rewrite Hs. cbn. intros [= <-]. apply Hsubs.
    + intros Hs' Hsub. specialize (H5 l' s' p sub Hs' Hsub). lia.
  - intros l' s'. rewrite lookup_alter. case_decide as Hl.
    + subst l'. rewrite Hs. cbn. by intros [= <-].
    + apply H6.
Qed.

(** Every operation preserves the invariant. *)
Lemma endMeeting_wf meetingId w :
  wf w -> holds (endMeeting meetingId w) (fun w' _ => wf w').
Proof.
  intros Hwf.
  destruct (activeSessions w !! meetingId) as [l|] eqn:Hl.
  2:{ eapply holds_mono; [|apply endMeeting_not_found].
      - intros w' r (_ & Hc & _). by eapply wf_console_only.
      - left. unfold session_of. by rewrite Hl. }
  destruct (sessionObjs w !! l) as [s|] eqn:Hs.
  2:{ eapply holds_mono; [|apply endMeeting_not_found].
      - intros w' r (_ & Hc & _). by eapply wf_console_only.
      - left. unfold session_of. rewrite Hl. cbn. by rewrite Hs. }
  destruct (meetings w !! meetingId) as [m|] eqn:Hm.
  2:{ eapply holds_mono; [|apply endMeeting_not_found].
      - intros w' r (_ & Hc & _). by eapply wf_console_only.
      - by right. }
  eapply holds_mono; [|by eapply endMeeting_spec].
  intros w' r [(res & _ & Hc & _)|(_ & Hc & _)].
  - eapply wf_console_only; [done|]. by apply wf_delete_session, wf_alter_meeting.
  - eapply wf_console_only; [done|]. by apply wf_alter_meeting.
Qed.

Lemma startMeeting_wf meetingId w :
  wf w -> holds (startMeeting meetingId w) (fun w' _ => wf w').
Proof.
  intros Hwf. destruct (meetings w !! meetingId) as [m|] eqn:Hm.
  - eapply holds_mono; [|by apply startMeeting_spec].
    intros w' r [_ Hc]. eapply wf_console_only; [done|].
    apply (wf_new_session (set_meetings (alter (startedAt (now w)) meetingId) w)
             meetingId (startedAt (now w) m) (now w)).
    + cbn. by rewrite lookup_alter_eq, Hm.
    + by apply wf_alter_meeting.
  - eapply holds_mono; [|by apply startMeeting_not_found].
    intros w' r [_ Hc]. by eapply wf_console_only.
Qed.

Lemma cancelMeeting_wf meetingId w :
  wf w -> holds (cancelMeeting meetingId w) (fun w' _ => wf w').
Proof.
  intros Hwf. destruct (meetings w !! meetingId) as [m|] eqn:Hm.
  - eapply holds_mono; [|by apply cancelMeeting_spec].
    intros w' r [_ Hc]. eapply wf_console_only; [done|].
    eapply wf_same; [..|by apply (wf_alter_meeting w (Meeting.with_status Cancelled) meetingId)];
      done.
  - eapply holds_mono; [|by apply cancelMeeting_not_found].
    intros w' r [_ Hc]. by eapply wf_console_only.
Qed.

Lemma scheduleMeeting_wf uuid meetingData w :
  meetings w !! uuid = None ->
  wf w -> holds (scheduleMeeting uuid meetingData w) (fun w' _ => wf w').
Proof.
  intros Hfresh Hwf.
  pose proof (wf_insert_meeting w uuid (newMeeting uuid meetingData (now w)) Hfresh Hwf)
    as Hwf'.
  unfold scheduleMeeting, try_catch, bind, get. cbn.
  case_decide as Hd; cbn.
  - eapply wf_same; [..|exact Hwf']; done.
  - destruct (_ <? _); cbn; (eapply wf_same; [..|exact Hwf']; done).
Qed.

Lemma joinMeeting_wf meetingId participantName w :
  wf w -> holds (joinMeeting meetingId participantName w) (fun w' _ => wf w').
Proof.
  intros Hwf. unfold joinMeeting, try_catch, bind, get. cbn.
  destruct (activeSessions w !! meetingId) as [l|] eqn:Hl; cbn.
  2:{ by eapply wf_same; [..|exact Hwf]. }
  destruct (sessionObjs w !! l) as [s|] eqn:Hs; cbn.
  2:{ destruct (meetings w !! meetingId); cbn; by eapply wf_same; [..|exact Hwf]. }
  destruct (meetings w !! meetingId) as [m|] eqn:Hm; cbn.
  2:{ by eapply wf_same; [..|exact Hwf]. }
  destruct (Js.array_includes participantName (Meeting.participants m)) eqn:Hin; cbn.
  2:{ by eapply wf_same; [..|exact Hwf]. }
  destruct (Session.isVirtualScrumMaster s) eqn:Hvsm; cbn.
  2:{ by eapply wf_same; [..|exact Hwf]. }
  apply array_includes_elem in Hin.
  destruct (wf_active w Hwf meetingId l Hl) as (s' & Hs' & Hid).
  destruct (wf_meeting w Hwf l s Hs) as (m' & Hm' & Hp).
  assert (s' = s) as -> by congruence.
  assert (m' = m) as -> by congruence.
  eapply wf_same;
    [..|apply (wf_alter_session w l s
                 (setStandup participantName
                    (freshStandup (now w) (nextLoc w) participantName))
                 (S (nextLoc w)) Hs)]; try done.
  - lia.
  - cbn. intros i a Ha. pose proof (wf_rows_alloc w Hwf l s i a Hs Ha). lia.
  - intros p sub. cbn. rewrite lookup_insert. case_decide.
    + intros [= <-]. cbn. lia.
    + intros Hsub. pose proof (wf_answers_alloc w Hwf l s p sub Hs Hsub). lia.
  - apply session_ok_join.
    + by apply (wf_session w Hwf l).
    + by rewrite Hp.
    + intros i a Ha ->. pose proof (wf_rows_alloc w Hwf l s i _ Hs Ha). lia.
Qed.

Lemma processStandupResponse_spec sessionData response questionIndex w :
  let w1 :=
    set_arrayObjs (alter
      (Js.array_set questionIndex
         {| Answer.question := Standup.questions sessionData !! questionIndex;
            Answer.answer := response;
            Answer.timestamp := now w |})
      (Standup.responses sessionData)) w in
  holds (processStandupResponse sessionData response questionIndex w)
    (fun w' r => console_only w1 w'
                 /\ exists aiResponse, r = Ok (answered sessionData questionIndex aiResponse)).
Proof.
  intros w1. unfold processStandupResponse, try_catch, bind, get. cbn.
  destruct (questionIndex =? 0)%nat; [|destruct (questionIndex =? 1)%nat;
    [|destruct (questionIndex =? 2)%nat; [destruct (says_no response)|]]].
  all: try (step_with generateResponse_spec;
            intros w' r [Hc [text ->]]; cbn; split; [console_only|eauto]).
  all: cbn; split; [console_only|eauto].
Qed.

#[local] Arguments processStandupResponse : simpl never.

Lemma checkMeetingCompletion_unfold meetingId w s :
  session_of w meetingId = Some s ->
  checkMeetingCompletion meetingId w
  = if (completedParticipants s =? length (Session.participants s))%nat
    then bind_step (endMeeting meetingId w) (fun _ => ret tt)
    else Done w (Ok tt).
Proof.
  intros Hs. unfold checkMeetingCompletion, bind, get. cbn. rewrite Hs.
  by destruct (_ =? _)%nat.
Qed.

Lemma checkMeetingCompletion_wf meetingId w :
  wf w -> holds (checkMeetingCompletion meetingId w) (fun w' _ => wf w').
Proof.
  intros Hwf. destruct (session_of w meetingId) as [s|] eqn:Hs.
  - rewrite (checkMeetingCompletion_unfold _ _ _ Hs).
    destruct (_ =? _)%nat; [|done].
    step_with endMeeting_wf; [|done].
    intros w' [res|e] Hwf'; done.
  - unfold checkMeetingCompletion, bind, get. cbn. by rewrite Hs.
Qed.

#[local] Arguments checkMeetingCompletion : simpl never.

Lemma submitStandupResponse_wf meetingId participantName response w :
  wf w ->
  holds (submitStandupResponse meetingId participantName response w)
    (fun w' _ => wf w').
Proof.
  intros Hwf. unfold submitStandupResponse, try_catch, bind, get. cbn.
  destruct (activeSessions w !! meetingId) as [l|] eqn:Hl; cbn.
  2:{ by eapply wf_same; [..|exact Hwf]. }
  destruct (sessionObjs w !! l) as [s|] eqn:Hs; cbn.
  2:{ by eapply wf_same; [..|exact Hwf]. }
  destruct (Session.activeStandupSessions s !! participantName) as [sub|] eqn:Hsub; cbn.
  2:{ by eapply wf_same; [..|exact Hwf]. }
  pose proof (wf_session w Hwf l s Hs) as Hok.
  destruct (proj1 Hok participantName sub Hsub) as [Hp Hflag].
  pose proof (session_ok_answer s participantName sub) as Hanswer.
  pose proof (session_ok_complete s participantName sub) as Hcomplete.
  assert (Hbase : forall G,
    Session.meetingId (G s) = Session.meetingId s ->
    Session.participants (G s) = Session.participants s ->
    (forall i a, Js.array_get i (Session.responses (G s)) = Some a ->
                 (a < nextLoc w)%nat) ->
    (forall p sub', Session.activeStandupSessions (G s) !! p = Some sub' ->
                    (Standup.responses sub' < nextLoc w)%nat) ->
    session_ok (G s) ->
    forall w', meetings w' = meetings w -> activeSessions w' = activeSessions w ->
               sessionObjs w' = alter G l (sessionObjs w) -> nextLoc w' = nextLoc w ->
               wf w').
  { intros G H1 H2 H3 H4 H5 w' E1 E2 E3 E4.
    eapply wf_same; [..|apply (wf_alter_session w l s G (nextLoc w) Hs)]; try done. }
  assert (Hsubs : forall k ack p sub',
    <[participantName := answered sub k ack]> (Session.activeStandupSessions s) !! p
      = Some sub' -> (Standup.responses sub' < nextLoc w)%nat).
  { intros k ack p sub'. rewrite lookup_insert. case_decide.
    - intros [= <-]. cbn. by apply (wf_answers_alloc w Hwf l s participantName sub).
    - by apply (wf_answers_alloc w Hwf l s). }
  remember (Standup.currentQuestionIndex sub) as k eqn:Hk.
  step_with processStandupResponse_spec.
  intros w2 r [[c ->] [ack ->]].
  assert (Hlow : (k < 2)%nat ->
    wf (set_sessionObjs (alter (setStandup participantName (answered sub k ack)) l)
          (set_console (fun _ => c)
             (set_arrayObjs (alter
                (Js.array_set k
                   {| Answer.question := Standup.questions sub !! k;
                      Answer.answer := response;
                      Answer.timestamp := now w |})
                (Standup.responses sub)) w)))).
  { intros Hlt.
    apply (Hbase (setStandup participantName (answered sub k ack))); try done.
    - cbn. intros i a Ha. by apply (wf_rows_alloc w Hwf l s i a).
    - cbn. apply Hsubs.
    - by apply Hanswer. }
  destruct k as [|[|k']]; cbn.
  - apply Hlow. lia.
  - apply Hlow. lia.
  - clear Hlow. step_with checkMeetingCompletion_wf.
    + intros w3 [[]|e] Hwf3; cbn; [done|]. by eapply wf_same; [..|exact Hwf3].
    + apply (Hbase (fun s => storeResponses participantName (Standup.responses sub)
                               (setStandup participantName
                                  (answered sub (S (S k')) ack) s))).
      * unfold storeResponses. by destruct (Js.indexOf _ _).
      * unfold storeResponses. by destruct (Js.indexOf _ _).
      * unfold storeResponses. cbn. destruct (Js.indexOf _ _) as [i0|]; cbn.
        -- intros i a. rewrite array_get_set. case_decide.
           ++ intros [= <-]. by apply (wf_answers_alloc w Hwf l s participantName sub).
           ++ intros Ha. by apply (wf_rows_alloc w Hwf l s i a).
        -- intros i a Ha. by apply (wf_rows_alloc w Hwf l s i a).
      * unfold storeResponses. cbn. destruct (Js.indexOf _ _); cbn; apply Hsubs.
      * apply Hcomplete; [done..|lia].
      * done.
      * done.
      * cbn. by rewrite alter_alter_eq.
      * done.
Qed.

#[local] Arguments startMeeting : simpl never.
#[local] Arguments endMeeting : simpl never.
#[local] Arguments cancelMeeting : simpl never.
#[local] Arguments scheduleMeeting : simpl never.
#[local] Arguments joinMeeting : simpl never.
#[local] Arguments submitStandupResponse : simpl never.

Lemma fireTimer_wf n w : wf w -> holds (fireTimer n w) (fun w' _ => wf w').
Proof.
  intros Hwf. unfold fireTimer, bind, get. cbn.
  destruct (timers w !! n) as [timer|]; cbn; [|done].
  destruct (timer_due timer <=? now w); cbn; [|done].
  step_with startMeeting_wf.
  - by intros w' [l|e] Hwf'.
  - by eapply wf_same; [..|exact Hwf].
Qed.

Lemma cronTick_wf meetingId w : wf w -> holds (cronTick meetingId w) (fun w' _ => wf w').
Proof.
  intros Hwf. unfold cronTick, bind, get. cbn.
  destruct (scheduledJobs w !! meetingId) as [job|]; cbn; [|done].
  step_with startMeeting_wf; [|done].
  by intros w' [l|e] Hwf'.
Qed.

Lemma perform_wf op w :
  wf w -> allowed w op -> holds (perform op w) (fun w' _ => wf w').
Proof.
  intros Hwf Hop. destruct op; unfold perform, bind.
  - step_with scheduleMeeting_wf; [|done..]. by intros w' [a|e] Hwf'.
  - step_with startMeeting_wf; [|done]. by intros w' [a|e] Hwf'.
  - step_with joinMeeting_wf; [|done]. by intros w' [a|e] Hwf'.
  - step_with submitStandupResponse_wf; [|done]. by intros w' [a|e] Hwf'.
  - step_with endMeeting_wf; [|done]. by intros w' [a|e] Hwf'.
  - step_with cancelMeeting_wf; [|done]. by intros w' [a|e] Hwf'.
  - by apply fireTimer_wf.
  - by apply cronTick_wf.
  - by eapply wf_same; [..|exact Hwf].
Qed.

Lemma reachable_wf w : reachable w -> wf w.
Proof.
  induction 1 as [t client lead|w op o Hw IH Hop].
  - apply wf_boot.
  - by apply (holds_finish (perform op w) (fun w' _ => wf w')), perform_wf.
Qed.

(* ===================================================================== *)
(** ** Scenarios are reachable *)
(* ===================================================================== *)

Lemma reachable_serve o ops w :
  reachable w -> fresh_uuids o ops w -> reachable (serve o ops w).
Proof.
  revert w. induction ops as [|op rest IH]; intros w Hw Hfresh; simpl; [done|].
  destruct Hfresh as [Hop Hrest]. apply IH; [|done]. by apply reachable_op.
Qed.

Lemma alter_as_insert `{Countable K} {A} (f : A -> A) (k : K) (x : A) (m : gmap K A) :
  m !! k = Some x -> alter f k m = <[k := f x]> m.
Proof.
  intros Hk. apply map_eq. intros j. rewrite lookup_alter, lookup_insert.
  case_decide; [subst; by rewrite Hk|done].
Qed.

(* ===================================================================== *)
(** ** Cancellation *)
(* ===================================================================== *)

(** C9.  [cancelMeeting] on an in-progress meeting sets the meeting's status
    to cancelled and removes the recurring job of the meeting, and nothing
    else: every other field of the meeting is as before, the
    [activeSessions] entry, the session object and the answers it refers to
    are untouched, and so are the other meetings. *)
Theorem C9_cancel_keeps_live_session w meetingId m o :
  meetings w !! meetingId = Some m ->
  Meeting.status m = InProgress ->
  let w' := (finish o 0 (cancelMeeting meetingId w)).1 in
  exists m',
    (finish o 0 (cancelMeeting meetingId w)).2 = Ok m'
    /\ meetings w' = <[meetingId := m']> (meetings w)
    /\ Meeting.status m' = Cancelled
    /\ Meeting.id m' = Meeting.id m
    /\ Meeting.title m' = Meeting.title m
    /\ Meeting.participants m' = Meeting.participants m
    /\ Meeting.scheduledTime m' = Meeting.scheduledTime m
    /\ Meeting.duration m' = Meeting.duration m
    /\ Meeting.isVirtualScrumMaster m' = Meeting.isVirtualScrumMaster m
    /\ Meeting.timezone m' = Meeting.timezone m
    /\ Meeting.recurrence m' = Meeting.recurrence m
    /\ Meeting.createdAt m' = Meeting.createdAt m
    /\ Meeting.createdBy m' = Meeting.createdBy m
    /\ Meeting.startedAt m' = Meeting.startedAt m
    /\ Meeting.endedAt m' = Meeting.endedAt m
    /\ scheduledJobs w' = delete meetingId (scheduledJobs w)
    /\ activeSessions w' = activeSessions w
    /\ sessionObjs w' = sessionObjs w
    /\ arrayObjs w' = arrayObjs w
    /\ session_of w' meetingId = session_of w meetingId.
Proof.
  intros Hm _ w'. subst w'.
  pose proof (holds_finish _ _ o 0 (cancelMeeting_spec meetingId w m Hm)) as H.
  cbv beta zeta in H. destruct H as [Hr [c Hw]].
  exists (Meeting.with_status Cancelled m). rewrite Hr, Hw. cbn.
  rewrite (alter_as_insert _ _ _ _ Hm). repeat split; try done.
Qed.


Lemma C9_cancel_keeps_live_session_witness :
  exists m',
    (finish always_ok 0 (cancelMeeting "m1" w_answering)).2 = Ok m'
    /\ Meeting.status m' = Cancelled
    /\ session_of (finish always_ok 0 (cancelMeeting "m1" w_answering)).1 "m1"
       = session_of w_answering "m1".
Proof.
  pose proof (C9_cancel_keeps_live_session w_answering "m1"
                (startedAt 1000 (newMeeting "m1" (standup ["alice"; "bob"] 1000) 0))
                always_ok) as H.
  assert (H1 : meetings w_answering !! "m1"
               = Some (startedAt 1000 (newMeeting "m1" (standup ["alice"; "bob"] 1000) 0)))
    by (vm_compute; reflexivity).
  specialize (H H1 eq_refl).
  destruct H as (m' & Hr & _ & Hst & _ & _ & _ & _ & _ & _ & _ & _ & _ & _ & _ & _
                 & _ & _ & _ & _ & Hs).
  exists m'. split; [exact Hr|]. split; [exact Hst|]. exact Hs.
Defined.

(* ===================================================================== *)
(** ** The status of a meeting *)
(* ===================================================================== *)

(** C2, as the specification states it, fails: a completed meeting that is
    started again is in progress, and so is a cancelled one; a completed
    meeting that is cancelled is cancelled. *)
Lemma C2_terminal_states_are_left :
  status_of w_completed "m1" = Some Completed
  /\ status_of (serve always_ok [StartMeeting "m1"] w_completed) "m1" = Some InProgress
  /\ status_of (serve always_ok [CancelMeeting "m1"] w_completed) "m1" = Some Cancelled
  /\ status_of w_cancelled "m1" = Some Cancelled
  /\ status_of (serve always_ok [StartMeeting "m1"] w_cancelled) "m1" = Some InProgress
  /\ status_of (serve always_ok [EndMeeting "m1"] w_cancelled) "m1" = Some Completed.
Proof. vm_compute. repeat split; reflexivity. Qed.

(** C2, amended.  A meeting is created with status scheduled.  The
    operations do not look at the current status: whatever it is,
    [startMeeting] sets it to in-progress, [cancelMeeting] sets it to
    cancelled, and [endMeeting] sets it to completed when the meeting has a
    live session and leaves it as it is when it has none.  None of them
    changes the status of another meeting. *)
Theorem C2_status_is_overwritten w meetingId m o :
  meetings w !! meetingId = Some m ->
  (forall uuid meetingData t,
     Meeting.status (newMeeting uuid meetingData t) = Scheduled)
  /\ status_of (finish o 0 (startMeeting meetingId w)).1 meetingId = Some InProgress
  /\ status_of (finish o 0 (cancelMeeting meetingId w)).1 meetingId = Some Cancelled
  /\ (is_Some (session_of w meetingId) ->
      status_of (finish o 0 (endMeeting meetingId w)).1 meetingId = Some Completed)
  /\ (session_of w meetingId = None ->
      status_of (finish o 0 (endMeeting meetingId w)).1 meetingId
      = Some (Meeting.status m))
  /\ (forall other, other ≠ meetingId ->
        status_of (finish o 0 (startMeeting meetingId w)).1 other = status_of w other
        /\ status_of (finish o 0 (cancelMeeting meetingId w)).1 other = status_of w other
        /\ status_of (finish o 0 (endMeeting meetingId w)).1 other = status_of w other).
Proof.
  intros Hm.
  pose proof (holds_finish _ _ o 0 (startMeeting_spec meetingId w m Hm)) as Hstart.
  pose proof (holds_finish _ _ o 0 (cancelMeeting_spec meetingId w m Hm)) as Hcancel.
  cbv beta zeta in Hstart, Hcancel.
  destruct Hstart as [_ [c1 Hstart]]. destruct Hcancel as [_ [c2 Hcancel]].
  assert (Hend : forall other,
    status_of (finish o 0 (endMeeting meetingId w)).1 other
    = if decide (other = meetingId)
      then Some (match session_of w meetingId with
                 | Some _ => Completed
                 | None => Meeting.status m
                 end)
      else status_of w other).
  { intros other. destruct (session_of w meetingId) as [s|] eqn:Hsess.
    - unfold session_of in Hsess.
      destruct (activeSessions w !! meetingId) as [l|] eqn:Hl; [|done]. cbn in Hsess.
      pose proof (holds_finish _ _ o 0
        (endMeeting_spec any_reply meetingId w l s m Hl Hsess Hm)) as H.
      cbv beta zeta in H. unfold status_of.
      destruct H as [(res & _ & [c ->] & _)|(_ & [c ->] & _)]; cbn;
        rewrite lookup_alter; case_decide; subst;
        rewrite ?decide_True, ?decide_False by done; rewrite ?Hm; done.
    - pose proof (holds_finish _ _ o 0
        (endMeeting_not_found any_reply meetingId w (or_introl Hsess))) as H.
      cbv beta in H. destruct H as (_ & [c ->] & _). unfold status_of. cbn.
      case_decide; subst; rewrite ?Hm; done. }
  split; [done|]. unfold status_of in *. rewrite Hstart, Hcancel. cbn.
  rewrite !lookup_alter_eq, Hm. cbn.
  split; [done|]. split; [done|]. split; [|split].
  - intros [s Hs]. rewrite Hend, decide_True, Hs by done. done.
  - intros Hs. rewrite Hend, decide_True, Hs by done. done.
  - intros other Hne. rewrite Hend, decide_False by done.
    rewrite !lookup_alter_ne by done. done.
Qed.

Lemma C2_status_is_overwritten_witness :
  status_of (finish always_ok 0 (startMeeting "m1" w_completed)).1 "m1" = Some InProgress.
Proof.
  assert (H1 : meetings w_completed !! "m1"
               = Some (completedAt 1000 (newSession 1000 "m1"
                                        (newMeeting "m1" (standup ["alice"; "bob"] 1000) 0))
                         (startedAt 1000 (newMeeting "m1" (standup ["alice"; "bob"] 1000) 0))))
    by (vm_compute; reflexivity).
  exact (proj1 (proj2 (C2_status_is_overwritten w_completed "m1" _ always_ok H1))).
Defined.

(* ===================================================================== *)
(** ** Scheduling *)
(* ===================================================================== *)




(* ===================================================================== *)
(** ** Triggers and cancellation *)
(* ===================================================================== *)




(* ===================================================================== *)
(** ** Joining *)
(* ===================================================================== *)

(** C7, as the specification states it, fails.  Alice has answered the
    first question; she joins again and her stand-up is back at the first
    question with no answer collected. *)
Lemma C7_rejoin_resets_progress :
  (exists s sub,
     session_of w_answering "m1" = Some s
     /\ Session.activeStandupSessions s !! "alice" = Some sub
     /\ Standup.currentQuestionIndex sub = 1%nat
     /\ length <$> arrayObjs w_answering !! Standup.responses sub = Some 1%nat)
  /\ (exists s sub,
        session_of (serve always_ok [JoinMeeting "m1" "alice"] w_answering) "m1" = Some s
        /\ Session.activeStandupSessions s !! "alice" = Some sub
        /\ Standup.currentQuestionIndex sub = 0%nat
        /\ arrayObjs (serve always_ok [JoinMeeting "m1" "alice"] w_answering)
             !! Standup.responses sub = Some []).
Proof.
  split.
  - eexists _, _. split; [vm_compute; reflexivity|].
    split; [vm_compute; reflexivity|]. split; [reflexivity|]. vm_compute. reflexivity.
  - eexists _, _. split; [vm_compute; reflexivity|].
    split; [vm_compute; reflexivity|]. split; [reflexivity|]. vm_compute. reflexivity.
Qed.

(** C7, amended.  [joinMeeting] is not idempotent: for a listed participant
    of a session with the virtual Scrum Master, every join, repeated or not,
    installs a fresh stand-up for the participant (first question, no
    answer collected, [isComplete] unset) in place of any earlier one, and
    returns the welcome context with the first question.  The response table
    of the session is left as it is. *)
Theorem C7_join_installs_fresh_standup w meetingId l s m participantName :
  activeSessions w !! meetingId = Some l ->
  sessionObjs w !! l = Some s ->
  meetings w !! meetingId = Some m ->
  participantName ∈ Meeting.participants m ->
  Session.isVirtualScrumMaster s = true ->
  let fresh := freshStandup (now w) (nextLoc w) participantName in
  exists w',
    joinMeeting meetingId participantName w
    = Done w' (Ok {| jd_sessionId := Some (Standup.sessionId fresh);
                     jd_welcomeMessage :=
                       "Welcome to the daily standup, " +:+ participantName
                       +:+ "! I'm your virtual Scrum Master today.";
                     jd_firstQuestion := Standup.questions fresh !! 0%nat;
                     jd_title := Meeting.title m;
                     jd_startTime := Session.startTime s;
                     jd_participants := Session.participants s |})
    /\ session_of w' meetingId = Some (setStandup participantName fresh s)
    /\ Session.activeStandupSessions (setStandup participantName fresh s) !! participantName
       = Some fresh
    /\ Session.responses (setStandup participantName fresh s) = Session.responses s
    /\ Standup.currentQuestionIndex fresh = 0%nat
    /\ Standup.isComplete fresh = None
    /\ arrayObjs w' !! Standup.responses fresh = Some [].
Proof.
  intros Hl Hs Hm Hp Hvsm fresh.
  apply array_includes_elem in Hp.
  unfold joinMeeting, try_catch, bind, get. cbn.
  rewrite Hl. cbn. rewrite Hs, Hm. cbn. rewrite Hp, Hvsm. cbn.
  eexists. split; [reflexivity|]. unfold session_of. cbn. rewrite Hl. cbn.
  rewrite lookup_alter_eq, Hs. cbn.
  repeat split; try done; by rewrite lookup_insert_eq.
Qed.

Lemma C7_join_installs_fresh_standup_witness :
  exists w' s,
    sessionObjs w_answering !! 0%nat = Some s
    /\ session_of w' "m1"
       = Some (setStandup "alice"
                 (freshStandup (now w_answering) (nextLoc w_answering) "alice") s).
Proof.
  assert (H1 : activeSessions w_answering !! "m1" = Some 0%nat) by (vm_compute; reflexivity).
  eassert (H2 : sessionObjs w_answering !! 0%nat = Some _) by (vm_compute; reflexivity).
  assert (H3 : meetings w_answering !! "m1"
               = Some (startedAt 1000 (newMeeting "m1" (standup ["alice"; "bob"] 1000) 0)))
    by (vm_compute; reflexivity).
  assert (H4 : "alice" ∈ Meeting.participants
                 (startedAt 1000 (newMeeting "m1" (standup ["alice"; "bob"] 1000) 0)))
    by (vm_compute; constructor).
  destruct (C7_join_installs_fresh_standup w_answering "m1" 0%nat _ _ "alice"
              H1 H2 H3 H4 eq_refl) as (w' & _ & Hsess & _).
  eexists w', _. split; [exact H2|exact Hsess].
Defined.

(* ===================================================================== *)
(** ** The stand-up of a participant *)
(* ===================================================================== *)

(** An answer that contains [none] contains [no]. *)
Lemma includes_none_no s : Js.includes "none" s = true -> Js.includes "no" s = true.
Proof.
  induction s as [|c t IH]; [done|].
  change (Js.includes "none" (String c t))
    with (String.prefix "none" (String c t) || Js.includes "none" t).
  change (Js.includes "no" (String c t))
    with (String.prefix "no" (String c t) || Js.includes "no" t).
  intros [Hp|Ht]%orb_true_iff; apply orb_true_iff; [left|right; by apply IH].
  change (String.prefix "none" (String c t))
    with (if ascii_dec "n" c then String.prefix "one" t else false) in Hp.
  change (String.prefix "no" (String c t))
    with (if ascii_dec "n" c then String.prefix "o" t else false).
  destruct (ascii_dec "n" c); [|done].
  destruct t as [|c' t']; [done|].
  change (String.prefix "one" (String c' t'))
    with (if ascii_dec "o" c' then String.prefix "ne" t' else false) in Hp.
  change (String.prefix "o" (String c' t'))
    with (if ascii_dec "o" c' then String.prefix EmptyString t' else false).
  destruct (ascii_dec "o" c'); [|done]. by destruct t'.
Qed.



(** C10.  A submission by a participant whose stand-up is already complete,
    after its three answers, is not rejected: a fourth answer, whose
    question is [undefined], is stored at index 3 of the participant's
    answers, the stand-up moves to question index 4 and stays complete, the
    participant's row of the response table is assigned again, and the
    completion detector runs again, on the world so updated. *)
Theorem C10_submit_after_completion w meetingId l s participantName sub i response :
  activeSessions w !! meetingId = Some l ->
  sessionObjs w !! l = Some s ->
  Session.activeStandupSessions s !! participantName = Some sub ->
  Standup.isComplete sub = Some true ->
  Standup.currentQuestionIndex sub = 3%nat ->
  length (Standup.questions sub) = 3%nat ->
  Js.indexOf participantName (Session.participants s) = Some i ->
  let extra := {| Answer.question := None;
                  Answer.answer := response;
                  Answer.timestamp := now w |} in
  let updated := answered sub 3 EmptyString in
  let s' := Session.with_responses
              (Js.array_set i (Standup.responses sub) (Session.responses s))
              (setStandup participantName updated s) in
  let w1 := set_sessionObjs (insert l s')
              (set_arrayObjs (alter (Js.array_set 3 extra) (Standup.responses sub)) w) in
  Standup.currentQuestionIndex updated = 4%nat
  /\ Standup.isComplete updated = Some true
  /\ Session.activeStandupSessions s' !! participantName = Some updated
  /\ Js.array_get i (Session.responses s') = Some (Standup.responses sub)
  /\ session_of w1 meetingId = Some s'
  /\ submitStandupResponse meetingId participantName response w
     = catch_step
         (bind_step (checkMeetingCompletion meetingId w1)
            (fun _ =>
               ret {| rd_acknowledgment := Some EmptyString;
                      rd_isComplete := Some true;
                      rd_nextQuestion := None;
                      rd_completionMessage := Some completionMessage |}))
         (fun error =>
            (console_error "Error submitting standup response:" error ;;
             throw "Failed to submit standup response")%async).
Proof.
  intros Hl Hs Hsub Hdone Hk Hq Hi extra updated s' w1.
  assert (Hquestion : Standup.questions sub !! 3%nat = None)
    by (apply lookup_ge_None_2; lia).
  split; [done|]. split; [done|].
  split; [by apply lookup_insert_eq|].
  split; [apply array_get_set_eq|].
  split.
  { unfold session_of. cbn. rewrite Hl. cbn. by rewrite lookup_insert_eq. }
  unfold submitStandupResponse, try_catch, bind, get. cbn.
  rewrite Hl. cbn. rewrite Hs. cbn. rewrite Hsub. cbn.
  unfold processStandupResponse, try_catch, bind, get. cbn. rewrite Hk. cbn.
  rewrite Hquestion.
  assert (Hw : set_sessionObjs
      (alter (storeResponses participantName (Standup.responses sub)) l)
      (set_sessionObjs (alter (setStandup participantName (answered sub 3 EmptyString)) l)
         (set_arrayObjs (alter (Js.array_set 3 extra) (Standup.responses sub)) w))
    = w1).
  { subst w1 s' updated. unfold set_sessionObjs. cbn. f_equal.
    rewrite alter_alter_eq. rewrite (alter_as_insert _ _ _ _ Hs). cbn.
    unfold storeResponses. cbn. by rewrite Hi. }
  by rewrite <- Hw.
Qed.

Lemma C10_submit_after_completion_witness :
  exists w1,
    submitStandupResponse "m1" "alice" "one more thing" w_alice_done
    = catch_step
        (bind_step (checkMeetingCompletion "m1" w1)
           (fun _ =>
              ret {| rd_acknowledgment := Some EmptyString;
                     rd_isComplete := Some true;
                     rd_nextQuestion := None;
                     rd_completionMessage := Some completionMessage |}))
        (fun error =>
           (console_error "Error submitting standup response:" error ;;
            throw "Failed to submit standup response")%async).
Proof.
  assert (H1 : activeSessions w_alice_done !! "m1" = Some 0%nat)
    by (vm_compute; reflexivity).
  eassert (H2 : sessionObjs w_alice_done !! 0%nat = Some _) by (vm_compute; reflexivity).
  match type of H2 with
  | _ = Some ?s =>
      eassert (H3 : Session.activeStandupSessions s !! "alice" = Some _)
        by (vm_compute; reflexivity)
  end.
  assert (H7 : Js.indexOf "alice" ["alice"; "bob"] = Some 0%nat) by (vm_compute; reflexivity).
  destruct (C10_submit_after_completion w_alice_done "m1" 0%nat _ "alice" _ 0%nat
              "one more thing" H1 H2 H3 eq_refl eq_refl eq_refl H7)
    as (_ & _ & _ & _ & _ & Hsubmit).
  eexists. exact Hsubmit.
Defined.

(* ===================================================================== *)
(** ** The finalizer *)
(* ===================================================================== *)







(* ===================================================================== *)
(** ** The response table *)
(* ===================================================================== *)

(** C3, as the specification states it, fails in both directions.  When
    alice is listed twice and has completed her stand-up, slot 1 is empty
    although the stand-up of [participants[1]] is complete.  When alice has
    completed her stand-up and joins again, slot 0 is populated although her
    stand-up is not complete any more. *)
Lemma C3_table_does_not_mirror_completion :
  (reachable w_twice
   /\ exists s, session_of w_twice "m1" = Some s
                /\ Session.participants s !! 1%nat = Some "alice"
                /\ standupComplete s "alice"
                /\ ~ populated s 1
                /\ ~ table_mirrors_completion s)
  /\ (reachable w_rejoined
      /\ exists s, session_of w_rejoined "m1" = Some s
                   /\ Session.participants s !! 0%nat = Some "alice"
                   /\ populated s 0
                   /\ ~ standupComplete s "alice"
                   /\ ~ table_mirrors_completion s).
Proof.
  split.
  - split.
    { apply reachable_serve; [apply reachable_boot|]. vm_compute. tauto. }
    eexists. split; [vm_compute; reflexivity|].
    assert (Hp : ["alice"; "alice"] !! 1%nat = Some "alice") by reflexivity.
    split; [exact Hp|].
    match goal with |- standupComplete ?s _ /\ _ =>
      assert (Hc : standupComplete s "alice")
        by (eexists; split; [vm_compute; reflexivity|reflexivity]);
      assert (Hn : ~ populated s 1) by (intros [a Ha]; vm_compute in Ha; done)
    end.
    split; [exact Hc|]. split; [exact Hn|].
    intros H. apply Hn, (H 1%nat "alice" Hp), Hc.
  - split.
    { apply reachable_serve; [apply reachable_boot|]. vm_compute. tauto. }
    eexists. split; [vm_compute; reflexivity|].
    assert (Hp : ["alice"; "bob"] !! 0%nat = Some "alice") by reflexivity.
    split; [exact Hp|].
    match goal with |- populated ?s _ /\ _ =>
      assert (Hc : populated s 0) by (eexists; vm_compute; reflexivity);
      assert (Hn : ~ standupComplete s "alice")
        by (intros (sub & Hsub & Hdone); vm_compute in Hsub;
            injection Hsub as <-; vm_compute in Hdone; done)
    end.
    split; [exact Hc|]. split; [exact Hn|].
    intros H. apply Hn, (H 0%nat "alice" Hp), Hc.
Qed.

(** C3, amended.  In every state reached by operations served one at a
    time, for every live session: when the stand-up of a participant has
    [isComplete] true, the slot at the first index of that participant in
    the list is populated, with the answers of that stand-up; and when slot
    [i] is populated, [i] is the first index of [participants[i]], that
    participant has a stand-up, and the stand-up has [isComplete] true if
    the slot holds its answers (after a re-join it holds those of the
    replaced stand-up). *)
Theorem C3_rows_follow_completion w meetingId s :
  reachable w ->
  session_of w meetingId = Some s ->
  (forall p sub,
     Session.activeStandupSessions s !! p = Some sub ->
     Js.truthy (Standup.isComplete sub) = true ->
     exists i, Js.indexOf p (Session.participants s) = Some i
               /\ Js.array_get i (Session.responses s) = Some (Standup.responses sub))
  /\ (forall i a,
        Js.array_get i (Session.responses s) = Some a ->
        exists p sub,
          Session.participants s !! i = Some p
          /\ Js.indexOf p (Session.participants s) = Some i
          /\ Session.activeStandupSessions s !! p = Some sub
          /\ (Standup.responses sub = a -> Js.truthy (Standup.isComplete sub) = true)).
Proof.
  intros Hw Hs. apply reachable_wf in Hw.
  unfold session_of in Hs.
  destruct (activeSessions w !! meetingId) as [l|]; [|done]. cbn in Hs.
  destruct (wf_session w Hw l s Hs) as (_ & Hcomplete & Hrows). done.
Qed.

Lemma C3_rows_follow_completion_witness :
  exists s,
    session_of w_rejoined "m1" = Some s
    /\ forall i a,
         Js.array_get i (Session.responses s) = Some a ->
         exists p sub,
           Session.participants s !! i = Some p
           /\ Js.indexOf p (Session.participants s) = Some i
           /\ Session.activeStandupSessions s !! p = Some sub
           /\ (Standup.responses sub = a -> Js.truthy (Standup.isComplete sub) = true).
Proof.
  assert (H1 : reachable w_rejoined).
  { apply reachable_serve; [apply reachable_boot|]. vm_compute. tauto. }
  eassert (H2 : session_of w_rejoined "m1" = Some _) by (vm_compute; reflexivity).
  eexists. split; [exact H2|].
  exact (proj2 (C3_rows_follow_completion w_rejoined "m1" _ H1 H2)).
Defined.

(* ===================================================================== *)
(** ** JavaScript strings *)
(* ===================================================================== *)

(** [needle] is a prefix of [hay], and occurs in [hay]. *)
Lemma prefix_iff a b : String.prefix a b = true <-> exists post, b = a +:+ post.
Proof.
  revert b. induction a as [|c a IH]; intros b.
  - split; [intros _; by exists b|intros _; by destruct b].
  - destruct b as [|d b].
    + split; [done|]. intros [post Hpost]. done.
    + change (String.prefix (String c a) (String d b))
        with (if ascii_dec c d then String.prefix a b else false).
      destruct (ascii_dec c d) as [->|Hne].
      * rewrite IH. split; intros [post Hpost]; exists post.
        -- by rewrite Hpost.
        -- by injection Hpost.
      * split; [done|]. intros [post Hpost]. injection Hpost. congruence.
Qed.

Lemma includes_iff needle hay :
  Js.includes needle hay = true <-> exists pre post, hay = pre +:+ needle +:+ post.
Proof.
  induction hay as [|c t IH].
  - change (Js.includes needle EmptyString) with (String.prefix needle EmptyString || false).
    rewrite orb_false_r, prefix_iff. split.
    + intros [post Hpost]. by exists EmptyString, post.
    + intros (pre & post & H). destruct pre; [by exists post|done].
  - change (Js.includes needle (String c t))
      with (String.prefix needle (String c t) || Js.includes needle t).
    rewrite orb_true_iff, prefix_iff, IH. split.
    + intros [[post Hpost]|(pre & post & Hpost)].
      * by exists EmptyString, post.
      * exists (String c pre), post. by rewrite Hpost.
    + intros (pre & post & Hpost). destruct pre as [|d pre].
      * left. by exists post.
      * right. exists pre, post. by injection Hpost.
Qed.

Lemma append_assoc (a b c : string) : (a +:+ b) +:+ c = a +:+ b +:+ c.
Proof.
  induction a as [|x a IH]; [done|].
  change (String x ((a +:+ b) +:+ c) = String x (a +:+ b +:+ c)). by f_equal.
Qed.

Lemma includes_trans a b c :
  Js.includes a b = true -> Js.includes b c = true -> Js.includes a c = true.
Proof.
  rewrite !includes_iff. intros (p1 & q1 & ->) (p2 & q2 & ->).
  exists (p2 +:+ p1), (q1 +:+ q2).
  by rewrite !append_assoc.
Qed.

Lemma toLowerCase_app a b :
  Js.toLowerCase (a +:+ b) = Js.toLowerCase a +:+ Js.toLowerCase b.
Proof.
  induction a as [|c a IH]; [done|].
  change (String (Js.lower_ascii c) (Js.toLowerCase (a +:+ b))
          = String (Js.lower_ascii c) (Js.toLowerCase a +:+ Js.toLowerCase b)).
  by f_equal.
Qed.

Lemma includes_app_l needle a b :
  Js.includes needle a = true -> Js.includes needle (a +:+ b) = true.
Proof.
  rewrite !includes_iff. intros (p & q & ->). exists p, (q +:+ b).
  by rewrite !append_assoc.
Qed.

Lemma includes_app_r needle a b :
  Js.includes needle b = true -> Js.includes needle (a +:+ b) = true.
Proof.
  rewrite !includes_iff. intros (p & q & ->). exists (a +:+ p), q.
  by rewrite !append_assoc.
Qed.

Lemma includes_no_none s : Js.includes "no" s = false -> Js.includes "none" s = false.
Proof.
  intros Hno. destruct (Js.includes "none" s) eqn:Hnone; [|done].
  apply includes_none_no in Hnone. congruence.
Qed.

Lemma includes_concat needle sep x l :
  x ∈ l ->
  Js.includes needle (Js.toLowerCase x) = true ->
  Js.includes needle (Js.toLowerCase (String.concat sep l)) = true.
Proof.
  induction l as [|y t IH]; [by intros ?%elem_of_nil|].
  intros Hx Hin. destruct t as [|z t].
  - apply list_elem_of_singleton in Hx as ->. done.
  - change (String.concat sep (y :: z :: t)) with (y +:+ sep +:+ String.concat sep (z :: t)).
    rewrite !toLowerCase_app. apply elem_of_cons in Hx as [->|Hx].
    + by apply includes_app_l.
    + apply includes_app_r, includes_app_r. by apply IH.
Qed.

(* ===================================================================== *)
(** ** The language model and the blockers *)
(* ===================================================================== *)



(** The blockers [extractBlockers] finds in a response table. *)
Lemma elem_of_extractBlockers responses b :
  b ∈ extractBlockers responses
  <-> exists index row blockerResponse,
        responses !! index = Some (Some row)
        /\ row !! 2%nat = Some (Some blockerResponse)
        /\ Js.includes "no" (Js.toLowerCase (Answer.answer blockerResponse)) = false
        /\ b = {| b_participant := "Participant " +:+ pretty (index + 1)%nat;
                  b_blocker := Answer.answer blockerResponse;
                  b_timestamp := Answer.timestamp blockerResponse |}.
Proof.
  unfold extractBlockers. rewrite list_elem_of_join. split.
  - intros (l & Hb & Hl). apply elem_of_lookup_imap in Hl as (i & y & -> & Hy).
    destruct y as [row|]; [|by apply elem_of_nil in Hb].
    destruct (2 <? length row)%nat eqn:Hlen; [|by apply elem_of_nil in Hb].
    unfold Js.array_get in Hb.
    destruct (row !! 2%nat) as [[a|]|] eqn:Ha; cbn in Hb; try by apply elem_of_nil in Hb.
    destruct (Js.includes "no" (Js.toLowerCase (Answer.answer a))) eqn:Hno; cbn in Hb;
      [by apply elem_of_nil in Hb|].
    destruct (Js.includes "none" (Js.toLowerCase (Answer.answer a))) eqn:Hnone; cbn in Hb;
      [by apply elem_of_nil in Hb|].
    apply list_elem_of_singleton in Hb. by exists i, row, a.
  - intros (i & row & a & Hi & Ha & Hno & ->).
    assert (Hlen : (2 <? length row)%nat = true).
    { apply Nat.ltb_lt. by apply lookup_lt_Some in Ha. }
    match goal with
    | |- context [imap ?f _] => pose proof (elem_of_lookup_imap_2 f _ _ _ Hi) as Hin
    end.
    eexists. split; [|exact Hin].
    cbv beta iota. rewrite Hlen. unfold Js.array_get. rewrite Ha. cbn.
    rewrite Hno, (includes_no_none _ Hno). cbn. by apply list_elem_of_singleton.
Qed.

(** X2.  A blocker is among those [extractBlockers] returns exactly when
    it comes from a row of the table that has a third answer whose
    lower-cased text does not contain [no] (the test for [none] adds
    nothing); it carries that answer and its timestamp and is labelled by
    the position of the row, [Participant index+1], not by a name.  So the
    text of an extracted blocker never contains a word in which [no]
    occurs, such as [cannot proceed], [not] or [unknown]. *)
Theorem X2_extractBlockers_characterised responses b :
  (b ∈ extractBlockers responses
   <-> exists index row blockerResponse,
         responses !! index = Some (Some row)
         /\ row !! 2%nat = Some (Some blockerResponse)
         /\ Js.includes "no" (Js.toLowerCase (Answer.answer blockerResponse)) = false
         /\ b = {| b_participant := "Participant " +:+ pretty (index + 1)%nat;
                   b_blocker := Answer.answer blockerResponse;
                   b_timestamp := Answer.timestamp blockerResponse |})
  /\ (b ∈ extractBlockers responses ->
      forall word, Js.includes "no" word = true ->
                   Js.includes word (Js.toLowerCase (b_blocker b)) = false).
Proof.
  split; [apply elem_of_extractBlockers|].
  intros (i & row & a & _ & _ & Hno & ->)%elem_of_extractBlockers word Hword. cbn.
  destruct (Js.includes word _) eqn:Hin; [|done].
  by rewrite (includes_trans _ _ _ Hword Hin) in Hno.
Qed.

Lemma X2_extractBlockers_characterised_witness :
  redBuild ∈ extractBlockers exampleTable
  /\ Js.includes "cannot proceed" (Js.toLowerCase (b_blocker redBuild)) = false.
Proof.
  pose proof (X2_extractBlockers_characterised exampleTable redBuild) as [Hiff Hword].
  assert (Hno : Js.includes "no" (Js.toLowerCase "The build is red") = false)
    by (vm_compute; reflexivity).
  assert (Hlabel : "Participant " +:+ pretty (2 + 1)%nat = "Participant 3")
    by (vm_compute; reflexivity).
  assert (Hin : redBuild ∈ extractBlockers exampleTable).
  { apply Hiff.
    exists 2%nat, (threeAnswers "reviews" "the release" "The build is red"),
      {| Answer.question := Some "blockers"; Answer.answer := "The build is red";
         Answer.timestamp := 0 |}.
    split; [reflexivity|]. split; [reflexivity|]. split; [exact Hno|].
    cbn [Answer.answer Answer.timestamp]. rewrite Hlabel. reflexivity. }
  assert (Hcannot : Js.includes "no" "cannot proceed" = true) by (vm_compute; reflexivity).
  split; [exact Hin|exact (Hword Hin "cannot proceed" Hcannot)].
Defined.

Lemma urgent_keyword_found keyword analysis blockersText :
  keyword ∈ urgentKeywords ->
  Js.includes keyword (Js.toLowerCase analysis) = true
  \/ Js.includes keyword (Js.toLowerCase blockersText) = true ->
  existsb (fun keyword =>
    Js.includes keyword (Js.toLowerCase analysis)
    || Js.includes keyword (Js.toLowerCase blockersText)) urgentKeywords = true.
Proof.
  intros Hkw Hin. apply existsb_exists. exists keyword.
  split; [by apply list_elem_of_In|]. by apply orb_true_iff.
Qed.

(** X3.  When the text of one of the blockers contains one of the urgent
    keywords, [analyzeBlockers] requires escalation whatever the language
    model answers, and also when the call to it fails; it returns the
    blockers it was given. *)
Theorem X3_analyzeBlockers_urgent_blocker_escalates blockers b keyword w :
  b ∈ blockers ->
  keyword ∈ urgentKeywords ->
  Js.includes keyword (Js.toLowerCase (b_blocker b)) = true ->
  holds (analyzeBlockers blockers w)
    (fun w' r =>
       console_only w w'
       /\ exists analysis,
            r = Ok {| ba_analysis := analysis;
                      ba_requiresEscalation := true;
                      ba_blockers := blockers |}).
Proof.
  intros Hb Hkw Hin. unfold analyzeBlockers, try_catch, bind.
  destruct blockers as [|b0 bs] eqn:Hbs; [by apply elem_of_nil in Hb|]. rewrite <- Hbs in *.
  step_with generateResponse_spec.
  intros w' r [Hc [text ->]]. cbn. split; [done|]. exists text. do 2 f_equal.
  apply (urgent_keyword_found keyword); [done|]. right.
  apply (includes_concat _ _ (b_participant b +:+ ": " +:+ b_blocker b)).
  - apply list_elem_of_fmap. by exists b.
  - rewrite !toLowerCase_app. by apply includes_app_r, includes_app_r.
Qed.

Lemma X3_analyzeBlockers_urgent_blocker_escalates_witness :
  holds (analyzeBlockers [urgentOutage] w_boot)
    (fun w' r =>
       console_only w_boot w'
       /\ exists analysis,
            r = Ok {| ba_analysis := analysis;
                      ba_requiresEscalation := true;
                      ba_blockers := [urgentOutage] |}).
Proof.
  assert (H1 : urgentOutage ∈ [urgentOutage]) by constructor.
  assert (H2 : "urgent" ∈ urgentKeywords) by constructor.
  assert (H3 : Js.includes "urgent" (Js.toLowerCase (b_blocker urgentOutage)) = true)
    by (vm_compute; reflexivity).
  exact (X3_analyzeBlockers_urgent_blocker_escalates
           [urgentOutage] urgentOutage "urgent" w_boot H1 H2 H3).
Defined.

Lemma generateResponse_says content prompt role w :
  openAIClient w = true ->
  holds_if (model_says content) (generateResponse prompt role w)
    (fun w' r =>
       console_only w w'
       /\ r = Ok (Js.or_string (Some content)
                    "I apologize, but I could not generate a response.")).
Proof.
  intros Hclient. unfold generateResponse, try_catch, bind, get. cbn. rewrite Hclient. cbn.
  intros r ->. cbn. split; [console_only|done].
Qed.

(** X4.  With the client configured and at least one blocker, escalation
    also follows from the wording of the language model alone: when its
    reply contains an urgent keyword anywhere, as in [not urgent],
    [analyzeBlockers] requires escalation, whatever the blockers say. *)
Theorem X4_analyzeBlockers_escalates_on_wording blockers keyword content w :
  blockers <> [] ->
  openAIClient w = true ->
  keyword ∈ urgentKeywords ->
  Js.includes keyword (Js.toLowerCase content) = true ->
  holds_if (model_says content) (analyzeBlockers blockers w)
    (fun w' r =>
       r = Ok {| ba_analysis := content;
                 ba_requiresEscalation := true;
                 ba_blockers := blockers |}
       /\ console_only w w').
Proof.
  intros Hne Hclient Hkw Hin.
  assert (Hcontent : Js.or_string (Some content)
                       "I apologize, but I could not generate a response." = content).
  { destruct content as [|c t]; [|done]. exfalso.
    change (Js.toLowerCase EmptyString) with EmptyString in Hin.
    change (Js.includes keyword EmptyString)
      with (String.prefix keyword EmptyString || false) in Hin.
    repeat (apply elem_of_cons in Hkw as [->|Hkw]; [done|]). by apply elem_of_nil in Hkw. }
  unfold analyzeBlockers, try_catch, bind.
  destruct blockers as [|b0 bs] eqn:Hbs; [done|]. rewrite <- Hbs in *.
  apply holds_catch, holds_bind.
  eapply holds_mono; [|by apply generateResponse_says].
  intros w' r [Hc ->]. rewrite Hcontent. cbn. split; [|done].
  do 2 f_equal. apply (urgent_keyword_found keyword); [done|by left].
Qed.

Lemma X4_analyzeBlockers_escalates_on_wording_witness :
  holds_if (model_says "This is not urgent.") (analyzeBlockers [redBuild] w_boot)
    (fun w' r =>
       r = Ok {| ba_analysis := "This is not urgent.";
                 ba_requiresEscalation := true;
                 ba_blockers := [redBuild] |}
       /\ console_only w_boot w').
Proof.
  assert (H1 : [redBuild] <> []) by discriminate.
  assert (H2 : openAIClient w_boot = true) by reflexivity.
  assert (H3 : "urgent" ∈ urgentKeywords) by constructor.
  assert (H4 : Js.includes "urgent" (Js.toLowerCase "This is not urgent.") = true)
    by (vm_compute; reflexivity).
  exact (X4_analyzeBlockers_escalates_on_wording
           [redBuild] "urgent" "This is not urgent." w_boot H1 H2 H3 H4).
Defined.

(* ===================================================================== *)
(** ** What the finalizer reports *)
(* ===================================================================== *)

Lemma read_table_console_only w w' table :
  console_only w w' -> read_table w' table = read_table w table.
Proof. by intros [c ->]. Qed.

Lemma summarizeMeeting_result md w :
  holds (summarizeMeeting md w)
    (fun w' r =>
       console_only w w'
       /\ exists text,
            r = Ok {| sm_summary := text;
                      sm_meetingDate := mr_date md;
                      sm_participants := mr_participants md;
                      sm_duration := mr_duration md;
                      sm_blockers := extractBlockers (read_table w (mr_responses md)) |}).
Proof.
  unfold summarizeMeeting, try_catch, bind. cbn.
  step_with generateResponse_spec.
  intros w' r [Hc [text ->]]. cbn. split; [done|]. exists text.
  by rewrite (read_table_console_only _ _ _ Hc).
Qed.

Lemma analyzeBlockers_result blockers w :
  holds (analyzeBlockers blockers w)
    (fun w' r =>
       console_only w w'
       /\ exists analysis,
            r = Ok analysis
            /\ ba_blockers analysis = blockers
            /\ (blockers = [] -> ba_requiresEscalation analysis = false)).
Proof.
  unfold analyzeBlockers, try_catch, bind. destruct blockers as [|b bs] eqn:Hb; cbn.
  - split; [console_only|]. by eexists.
  - step_with generateResponse_spec.
    intros w' r [Hc [text ->]]. cbn. split; [done|]. by eexists.
Qed.

(** X5.  On a meeting with a live session, provided the summary mail and
    the task synchronisation succeed, [endMeeting] succeeds and its result
    describes that session: the meeting record names the session's
    participants, start and table and the rounded duration; the summary
    carries the same participants and date; the blockers of the summary,
    and those of the analysis when there are any, are those
    [extractBlockers] finds in the response table as it was when
    [endMeeting] began; and with no such blocker the analysis does not
    require escalation. *)
Theorem X5_endMeeting_reports_the_table w meetingId l s m :
  activeSessions w !! meetingId = Some l ->
  sessionObjs w !! l = Some s ->
  meetings w !! meetingId = Some m ->
  holds_if mail_and_sync_succeed (endMeeting meetingId w)
    (fun w' r =>
       exists result,
         r = Ok result
         /\ er_meetingData result
            = {| mr_id := meetingId;
                 mr_title := Meeting.title m;
                 mr_participants := Session.participants s;
                 mr_responses := l;
                 mr_date := Session.startTime s;
                 mr_duration := Js.round_minutes (now w - Session.startTime s) |}
         /\ sm_participants (er_summary result) = Session.participants s
         /\ sm_meetingDate (er_summary result) = Session.startTime s
         /\ sm_blockers (er_summary result) = extractBlockers (read_table w l)
         /\ (extractBlockers (read_table w l) <> [] ->
             ba_blockers (er_blockerAnalysis result) = extractBlockers (read_table w l))
         /\ (extractBlockers (read_table w l) = [] ->
             ba_requiresEscalation (er_blockerAnalysis result) = false)).
Proof.
  intros Hl Hs Hm. unfold endMeeting, try_catch, bind, get. cbn.
  rewrite Hl. cbn. rewrite Hs, Hm. cbn.
  step_with summarizeMeeting_result.
  intros w2 r [Hc2 [text ->]]. cbn.
  assert (Htable : read_table
            (set_meetings (alter (fun m0 =>
               Meeting.with_duration (Js.round_minutes (now w - Session.startTime s))
                 (Meeting.with_endedAt (now w) (Meeting.with_status Completed m0)))
               meetingId) w) l = read_table w l) by done.
  rewrite Htable.
  step_with analyzeBlockers_result.
  intros w3 r [Hc3 (analysis & -> & Hbl & Hesc)].
  step_with sendMeetingSummary_spec.
  intros w4 r [Hc4 [[-> _]|[-> [e He]]]]; cbn; [|by destruct He as [x [=]]].
  apply holds_bind.
  eapply holds_mono;
    [|instantiate (1 := fun w' r => r = Ok tt)].
  2:{ destruct (ba_requiresEscalation analysis).
      - eapply holds_mono; [|apply holds_weaken, alertTeamLead_spec]. by intros ? ? [_ ->].
      - done. }
  intros w5 r ->.
  step_with updateTasksFromMeeting_spec.
  intros w6 r [Hc6 [[-> _]|[-> [e He]]]]; cbn; [|by destruct He as [x [=]]].
  eexists. split; [reflexivity|]. cbn. done.
Qed.

Lemma X5_endMeeting_reports_the_table_witness :
  holds_if mail_and_sync_succeed (endMeeting "m1" w_alice_done)
    (fun w' r =>
       exists result,
         r = Ok result
         /\ sm_blockers (er_summary result)
            = extractBlockers (read_table w_alice_done 0%nat)
         /\ sm_participants (er_summary result) = ["alice"; "bob"]).
Proof.
  assert (H1 : activeSessions w_alice_done !! "m1" = Some 0%nat)
    by (vm_compute; reflexivity).
  eassert (H2 : sessionObjs w_alice_done !! 0%nat = Some _) by (vm_compute; reflexivity).
  eassert (H3 : meetings w_alice_done !! "m1" = Some _) by (vm_compute; reflexivity).
  eapply holds_mono;
    [|exact (X5_endMeeting_reports_the_table w_alice_done "m1" 0%nat _ _ H1 H2 H3)].
  intros w' r (result & Hr & _ & Hp & _ & Hb & _).
  exists result. split; [exact Hr|]. split; [exact Hb|exact Hp].
Defined.

(* ===================================================================== *)
(** ** A submission, step by step *)
(* ===================================================================== *)

Lemma submitStandupResponse_no_standup meetingId participantName response w :
  (forall s, session_of w meetingId = Some s ->
             Session.activeStandupSessions s !! participantName = None) ->
  holds (submitStandupResponse meetingId participantName response w)
    (fun w' r => r = Err "Failed to submit standup response" /\ console_only w w').
Proof.
  intros H. unfold submitStandupResponse, try_catch, bind, get. cbn.
  unfold session_of in H.
  destruct (activeSessions w !! meetingId) as [l|]; cbn in *; [|split; [done|console_only]].
  destruct (sessionObjs w !! l) as [s|]; cbn in *; [|split; [done|console_only]].
  rewrite (H s eq_refl). cbn. split; [done|console_only].
Qed.

Lemma submitStandupResponse_answer meetingId participantName response w l s sub :
  activeSessions w !! meetingId = Some l ->
  sessionObjs w !! l = Some s ->
  Session.activeStandupSessions s !! participantName = Some sub ->
  (Standup.currentQuestionIndex sub < 2)%nat ->
  holds (submitStandupResponse meetingId participantName response w)
    (fun w' r =>
       exists ack,
         r = Ok {| rd_acknowledgment := Some ack;
                   rd_isComplete := Some false;
                   rd_nextQuestion :=
                     Standup.questions sub !! S (Standup.currentQuestionIndex sub);
                   rd_completionMessage := None |}
         /\ console_only (answeredWorld w l participantName sub response ack) w').
Proof.
  intros Hl Hs Hsub Hk. unfold submitStandupResponse, try_catch, bind, get. cbn.
  rewrite Hl. cbn. rewrite Hs. cbn. rewrite Hsub. cbn.
  unfold answeredWorld, answerTo.
  remember (Standup.currentQuestionIndex sub) as k eqn:Ek.
  step_with processStandupResponse_spec.
  intros w2 r [[c ->] [ack ->]].
  destruct k as [|[|k']]; [| |lia]; cbn; exists ack; (split; [|console_only]).
  - done.
  - done.
Qed.

Lemma checkMeetingCompletion_spec P meetingId w l s :
  activeSessions w !! meetingId = Some l ->
  sessionObjs w !! l = Some s ->
  holds_if P (checkMeetingCompletion meetingId w)
    (fun w' r =>
       if (completedParticipants s =? length (Session.participants s))%nat then
         match meetings w !! meetingId with
         | Some m =>
             let w1 := set_meetings (alter (completedAt (now w) s) meetingId) w in
             (r = Ok tt
              /\ console_only (set_activeSessions (delete meetingId) w1) w'
              /\ (exists x, P (SendEmail MeetingSummary (Meeting.participants m)
                                 (Meeting.title m)) (Fulfilled x))
              /\ (exists x, P (UpdateTasks meetingId) (Fulfilled x)))
             \/ (r = Err "Failed to end meeting"
                 /\ console_only w1 w'
                 /\ ((exists e, P (SendEmail MeetingSummary (Meeting.participants m)
                                     (Meeting.title m)) (Rejected e))
                     \/ ((exists x, P (SendEmail MeetingSummary (Meeting.participants m)
                                         (Meeting.title m)) (Fulfilled x))
                         /\ exists e, P (UpdateTasks meetingId) (Rejected e))))
         | None => r = Err "Failed to end meeting" /\ console_only w w'
         end
       else r = Ok tt /\ w' = w).
Proof.
  intros Hl Hs.
  assert (Hsess : session_of w meetingId = Some s).
  { unfold session_of. rewrite Hl. done. }
  rewrite (checkMeetingCompletion_unfold _ _ _ Hsess).
  destruct (_ =? _)%nat; [|done].
  destruct (meetings w !! meetingId) as [m|] eqn:Hm.
  - apply holds_bind. eapply holds_mono; [|apply (endMeeting_spec P _ _ _ _ _ Hl Hs Hm)].
    intros w' r [(res & -> & Hc & Hmail & Hsync)|(-> & Hc & Hwhy)]; cbn.
    + left. done.
    + right. split; [done|]. split; [done|].
      destruct Hwhy as [[_ Hmail]|(_ & Hmail & Hsync)]; [by left|by right].
  - apply holds_bind. eapply holds_mono; [|apply (endMeeting_not_found P); by right].
    intros w' r (-> & Hc & _). done.
Qed.

Lemma storeResponses_participants p a s :
  Session.participants (storeResponses p a s) = Session.participants s.
Proof. unfold storeResponses. by destruct (Js.indexOf _ _). Qed.

Lemma storeResponses_startTime p a s :
  Session.startTime (storeResponses p a s) = Session.startTime s.
Proof. unfold storeResponses. by destruct (Js.indexOf _ _). Qed.

Lemma storeResponses_standups p a s :
  Session.activeStandupSessions (storeResponses p a s) = Session.activeStandupSessions s.
Proof. unfold storeResponses. by destruct (Js.indexOf _ _). Qed.

Lemma submitStandupResponse_completing P meetingId participantName response w l s sub :
  activeSessions w !! meetingId = Some l ->
  sessionObjs w !! l = Some s ->
  Session.activeStandupSessions s !! participantName = Some sub ->
  (2 <= Standup.currentQuestionIndex sub)%nat ->
  holds_if P (submitStandupResponse meetingId participantName response w)
    (fun w' r =>
       exists ack,
         let w2 := completedWorld w l participantName sub response ack in
         let s2 := storeResponses participantName (Standup.responses sub)
                     (setStandup participantName
                        (answered sub (Standup.currentQuestionIndex sub) ack) s) in
         if (completedParticipants s2 =? length (Session.participants s))%nat then
           match meetings w !! meetingId with
           | Some m =>
               let w3 := set_meetings (alter (completedAt (now w) s) meetingId) w2 in
               (r = Ok (completionData ack)
                /\ console_only (set_activeSessions (delete meetingId) w3) w'
                /\ (exists x, P (SendEmail MeetingSummary (Meeting.participants m)
                                   (Meeting.title m)) (Fulfilled x))
                /\ (exists x, P (UpdateTasks meetingId) (Fulfilled x)))
               \/ (r = Err "Failed to submit standup response"
                   /\ console_only w3 w'
                   /\ ((exists e, P (SendEmail MeetingSummary (Meeting.participants m)
                                       (Meeting.title m)) (Rejected e))
                       \/ ((exists x, P (SendEmail MeetingSummary (Meeting.participants m)
                                           (Meeting.title m)) (Fulfilled x))
                           /\ exists e, P (UpdateTasks meetingId) (Rejected e))))
           | None => r = Err "Failed to submit standup response" /\ console_only w2 w'
           end
         else r = Ok (completionData ack) /\ console_only w2 w').
Proof.
  intros Hl Hs Hsub Hk. unfold submitStandupResponse, try_catch, bind, get. cbn.
  rewrite Hl. cbn. rewrite Hs. cbn. rewrite Hsub. cbn.
  unfold completedWorld, answerTo.
  remember (Standup.currentQuestionIndex sub) as k eqn:Ek.
  apply holds_catch, holds_bind. eapply holds_mono;
    [|apply holds_weaken, processStandupResponse_spec].
  intros w2 r [[c ->] [ack ->]].
  destruct k as [|[|k']]; [lia|lia|]. cbn.
  apply holds_bind. eapply holds_mono;
    [|apply (checkMeetingCompletion_spec P meetingId _ l
               (storeResponses participantName (Standup.responses sub)
                  (setStandup participantName (answered sub (S (S k')) ack) s)))].
  2:{ done. }
  2:{ cbn. by rewrite !lookup_alter_eq, Hs. }
  intros w3 r H. cbn in H.
  rewrite storeResponses_participants in H. cbn in H.
  assert (Hobjs : forall c' : list (Level * string),
    alter (storeResponses participantName (Standup.responses sub)) l
      (alter (setStandup participantName (answered sub (S (S k')) ack)) l (sessionObjs w))
    = alter (fun s => storeResponses participantName (Standup.responses sub)
                        (setStandup participantName (answered sub (S (S k')) ack) s)) l
        (sessionObjs w)).
  { intros _. by rewrite alter_alter_eq. }
  destruct (_ =? _)%nat eqn:Hcount.
  - destruct (meetings w !! meetingId) as [m|] eqn:Hm.
    + unfold completedAt in *. rewrite storeResponses_startTime in H. cbn in H.
      destruct H as [(-> & Hc & Hmail & Hsync)|(-> & Hc & Hwhy)]; cbn.
      * exists ack. cbn. rewrite Hcount.
        left. split; [done|]. split; [|done].
        destruct Hc as [c' ->]. unfold set_sessionObjs, set_activeSessions, set_meetings.
        cbn. rewrite (Hobjs c'). eexists; reflexivity.
      * exists ack. cbn. rewrite Hcount.
        right. split; [done|]. split; [|done].
        destruct Hc as [c' ->]. unfold set_sessionObjs, set_activeSessions, set_meetings.
        cbn. rewrite (Hobjs c'). eexists; reflexivity.
    + destruct H as [-> Hc]. cbn.
      exists ack. cbn. rewrite Hcount.
      split; [done|].
      destruct Hc as [c' ->]. unfold set_sessionObjs. cbn. rewrite (Hobjs c').
      eexists; reflexivity.
  - destruct H as [-> ->]. cbn.
    exists ack. cbn. rewrite Hcount.
    split; [done|].
    unfold set_sessionObjs. cbn. rewrite (Hobjs c). eexists; reflexivity.
Qed.

Lemma submitStandupResponse_heap meetingId participantName response w l s sub :
  activeSessions w !! meetingId = Some l ->
  sessionObjs w !! l = Some s ->
  Session.activeStandupSessions s !! participantName = Some sub ->
  holds (submitStandupResponse meetingId participantName response w)
    (fun w' _ =>
       exists ack,
         arrayObjs w'
         = alter (Js.array_set (Standup.currentQuestionIndex sub)
                    (answerTo sub (Standup.currentQuestionIndex sub) response (now w)))
             (Standup.responses sub) (arrayObjs w)
         /\ sessionObjs w' = alter (recorded participantName sub ack) l (sessionObjs w)
         /\ now w' = now w
         /\ nextLoc w' = nextLoc w
         /\ (activeSessions w' = activeSessions w
             \/ ((2 <= Standup.currentQuestionIndex sub)%nat
                 /\ activeSessions w' = delete meetingId (activeSessions w)))).
Proof.
  intros Hl Hs Hsub. unfold recorded.
  destruct (decide (Standup.currentQuestionIndex sub < 2)%nat) as [Hk|Hk].
  - eapply holds_mono; [|apply (submitStandupResponse_answer _ _ _ _ _ _ _ Hl Hs Hsub Hk)].
    intros w' r (ack & _ & [c ->]). exists ack.
    apply Nat.ltb_lt in Hk. rewrite Hk. cbn. repeat split; by auto.
  - assert (Hk' : (2 <= Standup.currentQuestionIndex sub)%nat) by lia.
    eapply holds_mono;
      [|apply (submitStandupResponse_completing any_reply _ _ _ _ _ _ _ Hl Hs Hsub Hk')].
    intros w' r (ack & H). cbv zeta in H. exists ack.
    apply Nat.ltb_ge in Hk'. rewrite Hk'.
    destruct (_ =? _)%nat.
    + destruct (meetings w !! meetingId) as [m|].
      * destruct H as [(_ & [c ->] & _)|(_ & [c ->] & _)]; cbn; repeat split; auto.
        right. split; [|done]. by apply Nat.ltb_ge.
      * destruct H as (_ & [c ->]). cbn. repeat split; by auto.
    + destruct H as (_ & [c ->]). cbn. repeat split; by auto.
Qed.

(* ===================================================================== *)
(** ** Scheduling, starting and joining *)
(* ===================================================================== *)




(** X7.  Whatever [scheduleMeeting] answers, success or failure, the
    meeting it built is in the registry afterwards: [getMeeting] returns it
    for the identifier drawn, and answers for every other identifier as it
    did before. *)
Theorem X7_scheduleMeeting_getMeeting w uuid meetingData :
  exists w' r,
    scheduleMeeting uuid meetingData w = Done w' r
    /\ getMeeting uuid w' = Done w' (Ok (newMeeting uuid meetingData (now w)))
    /\ (forall meetingId, meetingId <> uuid ->
          getMeeting meetingId w' = match meetings w !! meetingId with
                                    | Some m => Done w' (Ok m)
                                    | None => Done w' (Err "Meeting not found")
                                    end).
Proof.
  unfold scheduleMeeting, try_catch, bind, get. cbn.
  assert (Hget : forall w' : World,
    meetings w' = <[uuid := newMeeting uuid meetingData (now w)]> (meetings w) ->
    getMeeting uuid w' = Done w' (Ok (newMeeting uuid meetingData (now w)))
    /\ (forall meetingId, meetingId <> uuid ->
          getMeeting meetingId w' = match meetings w !! meetingId with
                                    | Some m => Done w' (Ok m)
                                    | None => Done w' (Err "Meeting not found")
                                    end)).
  { intros w' Hw'. unfold getMeeting, bind, get. cbn. rewrite Hw'. split.
    - by rewrite lookup_insert_eq.
    - intros meetingId Hne. rewrite lookup_insert_ne by done.
      by destruct (meetings w !! meetingId). }
  case_decide as Hrec; cbn.
  - eexists _, _. split; [reflexivity|]. by apply Hget.
  - destruct (MeetingData.scheduledTime meetingData <? now w); cbn;
      (eexists _, _; split; [reflexivity|]; by apply Hget).
Qed.

(** X8.  [startMeeting] on a registered meeting always succeeds and
    installs a new, empty session, also when a session of the meeting is
    live: the stand-ups of the earlier session are out of reach, and every
    submission then fails, changing nothing but the console, until the
    participant joins again. *)
Theorem X8_startMeeting_replaces_live_session w meetingId m :
  meetings w !! meetingId = Some m ->
  holds (startMeeting meetingId w)
    (fun w' r =>
       r = Ok (nextLoc w)
       /\ status_of w' meetingId = Some InProgress
       /\ session_of w' meetingId = Some (newSession (now w) meetingId m)
       /\ forall participantName response,
            holds (submitStandupResponse meetingId participantName response w')
              (fun w'' r' =>
                 r' = Err "Failed to submit standup response" /\ console_only w' w'')).
Proof.
  intros Hm. eapply holds_mono; [|apply (startMeeting_spec meetingId w m Hm)].
  intros w' r [-> [c ->]]. cbn.
  assert (Hsess : session_of
            (set_console (fun _ => c)
               (set_activeSessions (insert meetingId (nextLoc w))
                  (set_sessionObjs (insert (nextLoc w) (newSession (now w) meetingId m))
                     (set_nextLoc (S (nextLoc w))
                        (set_meetings (alter (startedAt (now w)) meetingId) w)))))
            meetingId = Some (newSession (now w) meetingId m)).
  { unfold session_of. cbn. rewrite lookup_insert_eq. cbn. by rewrite lookup_insert_eq. }
  split; [done|]. split.
  { unfold status_of. cbn. by rewrite lookup_alter_eq, Hm. }
  split; [done|].
  intros participantName response.
  apply submitStandupResponse_no_standup.
  intros s Hs. rewrite Hsess in Hs. injection Hs as <-. cbn. apply lookup_empty.
Qed.

Lemma X8_startMeeting_replaces_live_session_witness :
  holds (startMeeting "m1" w_answering)
    (fun w' r =>
       r = Ok (nextLoc w_answering)
       /\ holds (submitStandupResponse "m1" "alice" "the printer" w')
            (fun w'' r' =>
               r' = Err "Failed to submit standup response" /\ console_only w' w'')).
Proof.
  eassert (H : meetings w_answering !! "m1" = Some _) by (vm_compute; reflexivity).
  eapply holds_mono; [|exact (X8_startMeeting_replaces_live_session w_answering "m1" _ H)].
  intros w' r (Hr & _ & _ & Hsubmit). split; [exact Hr|apply Hsubmit].
Defined.

Lemma notifyParticipants_fails m subject w :
  holds_if notification_fails (notifyParticipants m subject w)
    (fun w' r => r = Ok tt /\ console_only w w' /\ notification_error ∈ console w').
Proof.
  unfold notifyParticipants, EmailService.sendMeetingNotification, try_catch, bind.
  apply holds_catch, holds_catch, holds_bind.
  eapply holds_mono; [|apply sendEmail_spec].
  intros w1 r [Hc [[-> [x Hx]]|[-> _]]]; cbn.
  - destruct Hx as [e [=]].
  - split; [done|]. split; [console_only|].
    apply elem_of_app. right. by apply list_elem_of_singleton.
Qed.

(** X9.  When the notification mail is rejected, [startMeeting] and
    [cancelMeeting] still succeed: the meeting is in progress with its new
    session, respectively cancelled with its recurring job removed, and the
    failure only shows as an error on the console. *)
Theorem X9_start_and_cancel_survive_notification_failure w meetingId m :
  meetings w !! meetingId = Some m ->
  holds_if notification_fails (startMeeting meetingId w)
    (fun w' r =>
       r = Ok (nextLoc w)
       /\ status_of w' meetingId = Some InProgress
       /\ session_of w' meetingId = Some (newSession (now w) meetingId m)
       /\ notification_error ∈ console w')
  /\ holds_if notification_fails (cancelMeeting meetingId w)
       (fun w' r =>
          r = Ok (Meeting.with_status Cancelled m)
          /\ status_of w' meetingId = Some Cancelled
          /\ scheduledJobs w' !! meetingId = None
          /\ notification_error ∈ console w').
Proof.
  intros Hm. split.
  - unfold startMeeting, try_catch, bind, get. cbn. rewrite Hm. cbn.
    apply holds_catch, holds_bind.
    eapply holds_mono; [|apply notifyParticipants_fails].
    intros w' r (-> & [c ->] & Hlog). cbn. split; [done|].
    unfold status_of, session_of. cbn. rewrite lookup_alter_eq, Hm, lookup_insert_eq. cbn.
    rewrite lookup_insert_eq. split; [done|]. split; [done|].
    cbn in Hlog. apply elem_of_app. by left.
  - unfold cancelMeeting, try_catch, bind, get. cbn. rewrite Hm. cbn.
    assert (Hend : forall w1,
      meetings w1 = alter (Meeting.with_status Cancelled) meetingId (meetings w) ->
      scheduledJobs w1 !! meetingId = None ->
      holds_if notification_fails
        (catch_step
           (bind_step (notifyParticipants m "Meeting Cancelled" w1)
              (fun _ => (console_log ("Meeting " +:+ Meeting.title m +:+ " has been cancelled") ;;
                         getMeeting meetingId)))
           (fun error => (console_error "Error cancelling meeting:" error ;;
                          throw "Failed to cancel meeting")))
        (fun w' r =>
           r = Ok (Meeting.with_status Cancelled m)
           /\ status_of w' meetingId = Some Cancelled
           /\ scheduledJobs w' !! meetingId = None
           /\ notification_error ∈ console w')).
    { intros w1 Hmeet Hjobs. apply holds_catch, holds_bind.
      eapply holds_mono; [|apply notifyParticipants_fails].
      intros w' r (-> & [c ->] & Hlog). cbn. unfold getMeeting, bind, get, status_of. cbn.
      rewrite Hmeet, lookup_alter_eq, Hm. cbn. split; [done|].
      split; [by rewrite Hmeet, lookup_alter_eq, Hm|].
      split; [done|]. cbn in Hlog. apply elem_of_app. by left. }
    destruct (scheduledJobs w !! meetingId) as [job|] eqn:Hjob; cbn.
    + apply Hend; [done|]. cbn. by rewrite lookup_delete_eq.
    + by apply Hend.
Qed.

Lemma X9_start_and_cancel_survive_notification_failure_witness :
  holds_if notification_fails (cancelMeeting "m1" w_started)
    (fun w' r =>
       status_of w' "m1" = Some Cancelled /\ notification_error ∈ console w').
Proof.
  eassert (H : meetings w_started !! "m1" = Some _) by (vm_compute; reflexivity).
  eapply holds_mono;
    [|exact (proj2 (X9_start_and_cancel_survive_notification_failure w_started "m1" _ H))].
  intros w' r (_ & Hs & _ & Hlog). split; [exact Hs|exact Hlog].
Defined.

(** X10.  [joinMeeting] succeeds exactly for a participant listed in the
    meeting of a live session: its result then carries the title of the
    meeting and the participants of the session, and a first question
    exactly when the session has the virtual Scrum Master.  When it fails
    it fails with [Failed to join meeting], there was no live session, no
    meeting, or the participant is not listed, and nothing but the console
    has changed. *)
Theorem X10_joinMeeting_outcome meetingId participantName w :
  holds (joinMeeting meetingId participantName w)
    (fun w' r =>
       match r with
       | Ok joinData =>
           exists s m,
             session_of w meetingId = Some s
             /\ meetings w !! meetingId = Some m
             /\ participantName ∈ Meeting.participants m
             /\ jd_title joinData = Meeting.title m
             /\ jd_participants joinData = Session.participants s
             /\ (is_Some (jd_firstQuestion joinData)
                 <-> Session.isVirtualScrumMaster s = true)
       | Err e =>
           e = "Failed to join meeting"
           /\ console_only w w'
           /\ (session_of w meetingId = None
               \/ meetings w !! meetingId = None
               \/ exists m, meetings w !! meetingId = Some m
                            /\ participantName ∉ Meeting.participants m)
       end).
Proof.
  unfold joinMeeting, try_catch, bind, get, session_of. cbn.
  destruct (activeSessions w !! meetingId) as [l|] eqn:Hl; cbn.
  2:{ split; [done|]. split; [console_only|by left]. }
  destruct (sessionObjs w !! l) as [s|] eqn:Hs; cbn.
  2:{ destruct (meetings w !! meetingId); cbn;
        (split; [done|]; split; [console_only|by left]). }
  destruct (meetings w !! meetingId) as [m|] eqn:Hm; cbn.
  2:{ split; [done|]. split; [console_only|right; by left]. }
  destruct (Js.array_includes participantName (Meeting.participants m)) eqn:Hin; cbn.
  2:{ split; [done|]. split; [console_only|right; right].
      exists m. split; [done|]. intros Hp%array_includes_elem. congruence. }
  apply array_includes_elem in Hin.
  destruct (Session.isVirtualScrumMaster s) eqn:Hvsm; cbn.
  - exists s, m. repeat split; by eauto.
  - exists s, m. repeat split; try done. congruence.
Qed.

(* ===================================================================== *)
(** ** The life of a session object *)
(* ===================================================================== *)

Lemma evolve_same w w' : sessionObjs w' = sessionObjs w -> sessions_evolve w w'.
Proof. intros E l s' Hs'. right. exists s'. rewrite <- E. auto. Qed.

Lemma evolve_console_only w w0 w' :
  sessionObjs w0 = sessionObjs w -> console_only w0 w' -> sessions_evolve w w'.
Proof. intros E [c ->]. by apply evolve_same. Qed.

Lemma evolve_new w w' l t meetingId m :
  sessionObjs w' = <[l := newSession t meetingId m]> (sessionObjs w) ->
  sessions_evolve w w'.
Proof.
  intros E k s'. rewrite E, lookup_insert. case_decide.
  - intros [= <-]. left. by eauto.
  - intros Hs'. right. eauto.
Qed.

Lemma evolve_alter w w' l s G :
  sessionObjs w !! l = Some s ->
  session_step s (G s) ->
  sessionObjs w' = alter G l (sessionObjs w) ->
  sessions_evolve w w'.
Proof.
  intros Hs Hstep E k s'. rewrite E, lookup_alter. case_decide as Hk.
  - subst k. rewrite Hs. cbn. intros [= <-]. right. eauto.
  - intros Hs'. right. eauto.
Qed.

Lemma startMeeting_evolves meetingId w :
  holds (startMeeting meetingId w) (fun w' _ => sessions_evolve w w').
Proof.
  destruct (meetings w !! meetingId) as [m|] eqn:Hm.
  - eapply holds_mono; [|apply (startMeeting_spec meetingId w m Hm)].
    intros w' r [_ [c ->]]. by eapply evolve_new.
  - eapply holds_mono; [|apply (startMeeting_not_found meetingId w Hm)].
    intros w' r [_ [c ->]]. by apply evolve_same.
Qed.

Lemma cancelMeeting_evolves meetingId w :
  holds (cancelMeeting meetingId w) (fun w' _ => sessions_evolve w w').
Proof.
  destruct (meetings w !! meetingId) as [m|] eqn:Hm.
  - eapply holds_mono; [|apply (cancelMeeting_spec meetingId w m Hm)].
    intros w' r [_ [c ->]]. by apply evolve_same.
  - eapply holds_mono; [|apply (cancelMeeting_not_found meetingId w Hm)].
    intros w' r [_ [c ->]]. by apply evolve_same.
Qed.

Lemma endMeeting_evolves meetingId w :
  holds (endMeeting meetingId w) (fun w' _ => sessions_evolve w w').
Proof.
  destruct (activeSessions w !! meetingId) as [l|] eqn:Hl.
  2:{ eapply holds_mono; [|apply endMeeting_not_found; left; unfold session_of; by rewrite Hl].
      intros w' r (_ & [c ->] & _). by apply evolve_same. }
  destruct (sessionObjs w !! l) as [s|] eqn:Hs.
  2:{ eapply holds_mono;
        [|apply endMeeting_not_found; left; unfold session_of; rewrite Hl; cbn; by rewrite Hs].
      intros w' r (_ & [c ->] & _). by apply evolve_same. }
  destruct (meetings w !! meetingId) as [m|] eqn:Hm.
  2:{ eapply holds_mono; [|apply endMeeting_not_found; by right].
      intros w' r (_ & [c ->] & _). by apply evolve_same. }
  eapply holds_mono; [|apply (endMeeting_spec any_reply _ _ _ _ _ Hl Hs Hm)].
  intros w' r [(res & _ & [c ->] & _)|(_ & [c ->] & _)]; by apply evolve_same.
Qed.

Lemma scheduleMeeting_evolves uuid meetingData w :
  holds (scheduleMeeting uuid meetingData w) (fun w' _ => sessions_evolve w w').
Proof.
  unfold scheduleMeeting, try_catch, bind, get. cbn.
  case_decide; cbn; [by apply evolve_same|].
  destruct (_ <? _); cbn; by apply evolve_same.
Qed.

Lemma joinMeeting_evolves meetingId participantName w :
  wf w -> holds (joinMeeting meetingId participantName w) (fun w' _ => sessions_evolve w w').
Proof.
  intros Hwf. unfold joinMeeting, try_catch, bind, get. cbn.
  destruct (activeSessions w !! meetingId) as [l|] eqn:Hl; cbn; [|by apply evolve_same].
  destruct (sessionObjs w !! l) as [s|] eqn:Hs; cbn.
  2:{ destruct (meetings w !! meetingId); cbn; by apply evolve_same. }
  destruct (meetings w !! meetingId) as [m|] eqn:Hm; cbn; [|by apply evolve_same].
  destruct (Js.array_includes participantName (Meeting.participants m)) eqn:Hin; cbn;
    [|by apply evolve_same].
  destruct (Session.isVirtualScrumMaster s) eqn:Hvsm; cbn; [|by apply evolve_same].
  apply array_includes_elem in Hin.
  destruct (wf_active w Hwf meetingId l Hl) as (s' & Hs' & Hid).
  destruct (wf_meeting w Hwf l s Hs) as (m' & Hm' & Hp).
  assert (s' = s) as -> by congruence.
  assert (m' = m) as -> by congruence.
  eapply (evolve_alter w _ l s); [done| |done].
  constructor; [done|by rewrite Hp|].
  intros q sub Hq. pose proof (wf_answers_alloc w Hwf l s q sub Hs Hq). lia.
Qed.

Lemma submitStandupResponse_evolves meetingId participantName response w :
  holds (submitStandupResponse meetingId participantName response w)
    (fun w' _ => sessions_evolve w w').
Proof.
  destruct (activeSessions w !! meetingId) as [l|] eqn:Hl.
  2:{ eapply holds_mono; [|apply submitStandupResponse_no_standup].
      - intros w' r [_ [c ->]]. by apply evolve_same.
      - unfold session_of. by rewrite Hl. }
  destruct (sessionObjs w !! l) as [s|] eqn:Hs.
  2:{ eapply holds_mono; [|apply submitStandupResponse_no_standup].
      - intros w' r [_ [c ->]]. by apply evolve_same.
      - unfold session_of. rewrite Hl. cbn. by rewrite Hs. }
  destruct (Session.activeStandupSessions s !! participantName) as [sub|] eqn:Hsub.
  2:{ eapply holds_mono; [|apply submitStandupResponse_no_standup].
      - intros w' r [_ [c ->]]. by apply evolve_same.
      - unfold session_of. rewrite Hl. cbn. rewrite Hs. by intros ? [= <-]. }
  destruct (decide (Standup.currentQuestionIndex sub < 2)%nat) as [Hk|Hk].
  - eapply holds_mono; [|apply (submitStandupResponse_answer _ _ _ _ _ _ _ Hl Hs Hsub Hk)].
    intros w' r (ack & _ & [c ->]).
    eapply (evolve_alter w _ l s); [done| |done]. by constructor.
  - assert (Hk' : (2 <= Standup.currentQuestionIndex sub)%nat) by lia.
    eapply holds_mono;
      [|apply (submitStandupResponse_completing any_reply _ _ _ _ _ _ _ Hl Hs Hsub Hk')].
    intros w' r (ack & H). cbv zeta in H.
    assert (Hstep : session_step s
      (storeResponses participantName (Standup.responses sub)
         (setStandup participantName
            (answered sub (Standup.currentQuestionIndex sub) ack) s))) by by constructor.
    pose (G := fun s0 => storeResponses participantName (Standup.responses sub)
                 (setStandup participantName
                    (answered sub (Standup.currentQuestionIndex sub) ack) s0)).
    destruct (_ =? _)%nat.
    + destruct (meetings w !! meetingId) as [m|].
      * destruct H as [(_ & [c ->] & _)|(_ & [c ->] & _)];
          by apply (evolve_alter w _ l s G).
      * destruct H as (_ & [c ->]). by apply (evolve_alter w _ l s G).
    + destruct H as (_ & [c ->]). by apply (evolve_alter w _ l s G).
Qed.

Lemma perform_evolves op w :
  wf w -> holds (perform op w) (fun w' _ => sessions_evolve w w').
Proof.
  intros Hwf. destruct op; unfold perform, bind.
  - step_with scheduleMeeting_evolves. by intros w' [a|e] H.
  - step_with startMeeting_evolves. by intros w' [a|e] H.
  - step_with joinMeeting_evolves; [|done]. by intros w' [a|e] H.
  - step_with submitStandupResponse_evolves. by intros w' [a|e] H.
  - step_with endMeeting_evolves. by intros w' [a|e] H.
  - step_with cancelMeeting_evolves. by intros w' [a|e] H.
  - unfold fireTimer, bind, get. cbn.
    destruct (timers w !! n) as [timer|]; cbn; [|by apply evolve_same].
    destruct (timer_due timer <=? now w); cbn; [|by apply evolve_same].
    step_with startMeeting_evolves. by intros w' [a|e] H.
  - unfold cronTick, bind, get. cbn.
    destruct (scheduledJobs w !! meetingId) as [job|]; cbn; [|by apply evolve_same].
    step_with startMeeting_evolves. by intros w' [a|e] H.
  - by apply evolve_same.
Qed.

(** The induction principle for properties of session objects. *)
Lemma reachable_sessions (I : Session.t -> Prop) :
  (forall t meetingId m, I (newSession t meetingId m)) ->
  (forall s s', I s -> session_step s s' -> I s') ->
  forall w, reachable w -> forall l s, sessionObjs w !! l = Some s -> I s.
Proof.
  intros Hnew Hstep w Hw. induction Hw as [t client lead|w op o Hw IH Hop].
  - intros l s H. cbn in H. by rewrite lookup_empty in H.
  - pose proof (holds_finish _ _ o 0 (perform_evolves op w (reachable_wf w Hw))) as H.
    cbv beta in H. intros l s' Hs'.
    destruct (H l s' Hs') as [(t & id & m & ->)|(s & Hs & [->|Hst])].
    + apply Hnew.
    + by apply (IH l).
    + apply (Hstep s); [by apply (IH l)|done].
Qed.

Lemma session_step_isVirtualScrumMaster s s' :
  session_step s s' -> Session.isVirtualScrumMaster s' = Session.isVirtualScrumMaster s.
Proof.
  destruct 1; cbn; try done. unfold storeResponses. by destruct (Js.indexOf _ _).
Qed.

Lemma no_scrum_master_no_standups w l s :
  reachable w -> sessionObjs w !! l = Some s ->
  Session.isVirtualScrumMaster s = false -> Session.activeStandupSessions s = ∅.
Proof.
  intros Hw. revert l s.
  apply (reachable_sessions
           (fun s => Session.isVirtualScrumMaster s = false ->
                     Session.activeStandupSessions s = ∅)); [done| |done].
  intros s s' IH Hstep Hvsm.
  rewrite (session_step_isVirtualScrumMaster _ _ Hstep) in Hvsm.
  destruct Hstep as [p t a Hv _ _|p sub ack Hsub _|p sub ack Hsub _].
  - congruence.
  - rewrite (IH Hvsm) in Hsub. by rewrite lookup_empty in Hsub.
  - rewrite (IH Hvsm) in Hsub. by rewrite lookup_empty in Hsub.
Qed.

Lemma standups_keep_their_questions w l s p sub :
  reachable w -> sessionObjs w !! l = Some s ->
  Session.activeStandupSessions s !! p = Some sub ->
  Standup.questions sub = Standup.questions (freshStandup 0 0%nat p)
  /\ Standup.participantName sub = p.
Proof.
  intros Hw. revert l s p sub.
  cut (forall l s, sessionObjs w !! l = Some s ->
         forall p sub, Session.activeStandupSessions s !! p = Some sub ->
           Standup.questions sub = Standup.questions (freshStandup 0 0%nat p)
           /\ Standup.participantName sub = p).
  { intros H l s p sub Hs. by apply (H l s). }
  apply (reachable_sessions
           (fun s => forall p sub, Session.activeStandupSessions s !! p = Some sub ->
              Standup.questions sub = Standup.questions (freshStandup 0 0%nat p)
              /\ Standup.participantName sub = p)); [| |done].
  - intros t id m p sub H. cbn in H. by rewrite lookup_empty in H.
  - intros s s' IH Hstep q sub'.
    destruct Hstep as [p t a _ _ _|p sub ack Hsub _|p sub ack Hsub _].
    + cbn. rewrite lookup_insert. case_decide as Hq; [|apply IH].
      intros [= <-]. by subst.
    + cbn. rewrite lookup_insert. case_decide as Hq; [|apply IH].
      intros [= <-]. subst. cbn. by apply IH.
    + rewrite storeResponses_standups. cbn. rewrite lookup_insert.
      case_decide as Hq; [|apply IH].
      intros [= <-]. subst. cbn. by apply IH.
Qed.

Lemma answers_arrays_distinct w l s p q a b :
  reachable w -> sessionObjs w !! l = Some s ->
  Session.activeStandupSessions s !! p = Some a ->
  Session.activeStandupSessions s !! q = Some b ->
  Standup.responses a = Standup.responses b -> p = q.
Proof.
  intros Hw. revert l s p q a b.
  cut (forall l s, sessionObjs w !! l = Some s ->
         forall p q a b,
           Session.activeStandupSessions s !! p = Some a ->
           Session.activeStandupSessions s !! q = Some b ->
           Standup.responses a = Standup.responses b -> p = q).
  { intros H l s p q a b Hs. by apply (H l s). }
  apply (reachable_sessions
           (fun s => forall p q a b,
              Session.activeStandupSessions s !! p = Some a ->
              Session.activeStandupSessions s !! q = Some b ->
              Standup.responses a = Standup.responses b -> p = q)); [| |done].
  - intros t id m p q a b H. cbn in H. by rewrite lookup_empty in H.
  - intros s s' IH Hstep.
    assert (Hupd : forall p0 x,
      (forall q sub, Session.activeStandupSessions s !! q = Some sub -> q <> p0 ->
                     Standup.responses sub <> Standup.responses x) ->
      forall p q a b,
        <[p0 := x]> (Session.activeStandupSessions s) !! p = Some a ->
        <[p0 := x]> (Session.activeStandupSessions s) !! q = Some b ->
        Standup.responses a = Standup.responses b -> p = q).
    { intros p0 x Hx p q a b. rewrite !lookup_insert.
      destruct (decide (p0 = p)) as [Hp|Hp], (decide (p0 = q)) as [Hq|Hq].
      - congruence.
      - intros [= <-] Hb E. destruct (Hx q b Hb); [done|]. congruence.
      - intros Ha [= <-] E. destruct (Hx p a Ha); [done|]. congruence.
      - apply IH. }
    destruct Hstep as [p0 t a0 _ _ Hfresh|p0 sub ack Hsub _|p0 sub ack Hsub _].
    + cbn. apply Hupd. intros q sub Hq _. cbn. by apply (Hfresh q).
    + cbn. apply Hupd. intros q sub' Hq Hne. cbn. intros E.
      apply Hne. by apply (IH q p0 sub' sub).
    + intros p q a b. rewrite storeResponses_standups. cbn. apply Hupd.
      intros q' sub' Hq Hne. cbn. intros E.
      apply Hne. by apply (IH q' p0 sub' sub).
Qed.

(* ===================================================================== *)
(** ** The stand-up of a participant, from the first answer to the last *)
(* ===================================================================== *)

(** X11.  In every state reached by operations served one at a time, a
    submission by a participant who is at the first or the second question
    succeeds and returns the acknowledgment, [isComplete] false and the
    next question, which is the fixed second question after the first
    answer and the fixed third question after the second; the stand-up of
    the participant advances by one question, and the registry of meetings
    and the live sessions are as before. *)
Theorem X11_submit_returns_next_question w meetingId l s participantName sub response :
  reachable w ->
  activeSessions w !! meetingId = Some l ->
  sessionObjs w !! l = Some s ->
  Session.activeStandupSessions s !! participantName = Some sub ->
  (Standup.currentQuestionIndex sub < 2)%nat ->
  holds (submitStandupResponse meetingId participantName response w)
    (fun w' r =>
       exists ack,
         r = Ok {| rd_acknowledgment := Some ack;
                   rd_isComplete := Some false;
                   rd_nextQuestion :=
                     Some (if (Standup.currentQuestionIndex sub =? 0)%nat
                           then "Great! Now, what are you planning to work on today?"
                           else "Perfect! Do you have any blockers or impediments that are preventing you from moving forward?");
                   rd_completionMessage := None |}
         /\ session_of w' meetingId
            = Some (setStandup participantName
                      (answered sub (Standup.currentQuestionIndex sub) ack) s)
         /\ meetings w' = meetings w
         /\ activeSessions w' = activeSessions w).
Proof.
  intros Hw Hl Hs Hsub Hk.
  destruct (standups_keep_their_questions w l s _ _ Hw Hs Hsub) as [Hq _].
  eapply holds_mono; [|apply (submitStandupResponse_answer _ _ _ _ _ _ _ Hl Hs Hsub Hk)].
  intros w' r (ack & -> & [c ->]). exists ack. split.
  - rewrite Hq. destruct (Standup.currentQuestionIndex sub) as [|[|k]]; [done|done|lia].
  - unfold session_of. cbn. rewrite Hl. cbn. rewrite lookup_alter_eq, Hs. done.
Qed.

Lemma X11_submit_returns_next_question_witness :
  holds (submitStandupResponse "m1" "alice" "the printer" w_answering)
    (fun w' r =>
       exists ack,
         r = Ok {| rd_acknowledgment := Some ack;
                   rd_isComplete := Some false;
                   rd_nextQuestion :=
                     Some "Perfect! Do you have any blockers or impediments that are preventing you from moving forward?";
                   rd_completionMessage := None |}).
Proof.
  assert (H0 : reachable w_answering).
  { apply reachable_serve; [apply reachable_boot|]. vm_compute. tauto. }
  assert (H1 : activeSessions w_answering !! "m1" = Some 0%nat) by (vm_compute; reflexivity).
  eassert (H2 : sessionObjs w_answering !! 0%nat = Some _) by (vm_compute; reflexivity).
  match type of H2 with
  | _ = Some ?s =>
      eassert (H3 : Session.activeStandupSessions s !! "alice" = Some _)
        by (vm_compute; reflexivity)
  end.
  match type of H3 with
  | _ = Some ?sub =>
      assert (H4 : (Standup.currentQuestionIndex sub < 2)%nat) by (vm_compute; lia)
  end.
  eapply holds_mono;
    [|exact (X11_submit_returns_next_question w_answering "m1" 0%nat _ "alice" _
               "the printer" H0 H1 H2 H3 H4)].
  intros w' r (ack & Hr & _). exists ack. exact Hr.
Defined.

Lemma joinMeeting_installs meetingId participantName w l s m :
  activeSessions w !! meetingId = Some l ->
  sessionObjs w !! l = Some s ->
  meetings w !! meetingId = Some m ->
  participantName ∈ Meeting.participants m ->
  Session.isVirtualScrumMaster s = true ->
  exists joinData,
    joinMeeting meetingId participantName w
    = Done (set_sessionObjs
              (alter (setStandup participantName
                        (freshStandup (now w) (nextLoc w) participantName)) l)
              (set_arrayObjs (insert (nextLoc w) [])
                 (set_nextLoc (S (nextLoc w)) w)))
           (Ok joinData).
Proof.
  intros Hl Hs Hm Hp Hvsm. apply array_includes_elem in Hp.
  unfold joinMeeting, try_catch, bind, get. cbn.
  rewrite Hl. cbn. rewrite Hs, Hm. cbn. rewrite Hp, Hvsm. cbn. by eexists.
Qed.

(** X12.  What a participant answers is what is stored.  In a live session
    with the virtual Scrum Master, a listed participant who joins and then
    submits three answers, at any three instants and with nothing else
    touching the session in between, has an answers array holding exactly
    these three answers, in order, each with the question it answers and
    the instant of its submission; the stand-up of the participant refers
    to that array, is at question index 3 and is complete.  This holds
    however the language model, the mail and the task synchronisation
    settle, and also when the third submission reports a failure. *)
Theorem X12_standup_round_trip w meetingId l s m participantName r0 r1 r2 t0 t1 t2 :
  activeSessions w !! meetingId = Some l ->
  sessionObjs w !! l = Some s ->
  meetings w !! meetingId = Some m ->
  participantName ∈ Meeting.participants m ->
  Session.isVirtualScrumMaster s = true ->
  let fresh := freshStandup (now w) (nextLoc w) participantName in
  holds (joinMeeting meetingId participantName w) (fun w1 _ =>
    holds (submitStandupResponse meetingId participantName r0 (set_now t0 w1)) (fun w2 _ =>
      holds (submitStandupResponse meetingId participantName r1 (set_now t1 w2)) (fun w3 _ =>
        holds (submitStandupResponse meetingId participantName r2 (set_now t2 w3))
          (fun w4 _ =>
             arrayObjs w4 !! nextLoc w
             = Some [ Some (answerTo fresh 0 r0 t0);
                      Some (answerTo fresh 1 r1 t1);
                      Some (answerTo fresh 2 r2 t2) ]
             /\ exists s4 sub,
                  sessionObjs w4 !! l = Some s4
                  /\ Session.activeStandupSessions s4 !! participantName = Some sub
                  /\ Standup.responses sub = nextLoc w
                  /\ Standup.currentQuestionIndex sub = 3%nat
                  /\ Standup.isComplete sub = Some true)))).
Proof.
  intros Hl Hs Hm Hp Hvsm fresh.
  destruct (joinMeeting_installs _ _ _ _ _ _ Hl Hs Hm Hp Hvsm) as [jd ->]. cbn.
  (* first answer *)
  eapply holds_mono;
    [|apply (submitStandupResponse_heap meetingId participantName r0 _ l
               (setStandup participantName fresh s) fresh)].
  2:{ done. }
  2:{ cbn. by rewrite lookup_alter_eq, Hs. }
  2:{ cbn. by rewrite lookup_insert_eq. }
  intros w2 _ (ack0 & Harr2 & Hobj2 & _ & _ & Hact2). cbn in Harr2, Hobj2, Hact2.
  destruct Hact2 as [Hact2|[Hbad _]]; [|cbn in Hbad; lia].
  (* second answer *)
  set (sub1 := answered fresh 0 ack0).
  eapply holds_mono;
    [|apply (submitStandupResponse_heap meetingId participantName r1 _ l
               (setStandup participantName sub1 (setStandup participantName fresh s)) sub1)].
  2:{ cbn. by rewrite Hact2. }
  2:{ cbn. rewrite Hobj2, !lookup_alter_eq, Hs. done. }
  2:{ cbn. by rewrite lookup_insert_eq. }
  intros w3 _ (ack1 & Harr3 & Hobj3 & _ & _ & Hact3). cbn in Harr3, Hobj3, Hact3.
  destruct Hact3 as [Hact3|[Hbad _]]; [|cbn in Hbad; lia].
  (* third answer *)
  set (sub2 := answered sub1 1 ack1).
  eapply holds_mono;
    [|apply (submitStandupResponse_heap meetingId participantName r2 _ l
               (setStandup participantName sub2
                  (setStandup participantName sub1 (setStandup participantName fresh s)))
               sub2)].
  2:{ cbn. by rewrite Hact3, Hact2. }
  2:{ cbn. rewrite Hobj3, Hobj2, !lookup_alter_eq, Hs. done. }
  2:{ cbn. by rewrite lookup_insert_eq. }
  intros w4 _ (ack2 & Harr4 & Hobj4 & _). cbn in Harr4, Hobj4.
  split.
  - rewrite Harr4, Harr3, Harr2. rewrite !lookup_alter_eq, lookup_insert_eq.
    done.
  - rewrite Hobj4, Hobj3, Hobj2, !lookup_alter_eq, Hs. cbn.
    eexists _, _. split; [reflexivity|]. unfold recorded. cbn.
    rewrite storeResponses_standups. cbn. rewrite lookup_insert_eq. done.
Qed.

Lemma X12_standup_round_trip_witness :
  holds (joinMeeting "m1" "alice" w_started) (fun w1 _ =>
    holds (submitStandupResponse "m1" "alice" "the parser" (set_now 1001 w1)) (fun w2 _ =>
      holds (submitStandupResponse "m1" "alice" "the printer" (set_now 1002 w2))
        (fun w3 _ =>
           holds (submitStandupResponse "m1" "alice" "none" (set_now 1003 w3))
             (fun w4 _ =>
                let fresh := freshStandup (now w_started) (nextLoc w_started) "alice" in
                arrayObjs w4 !! nextLoc w_started
                = Some [ Some (answerTo fresh 0 "the parser" 1001);
                         Some (answerTo fresh 1 "the printer" 1002);
                         Some (answerTo fresh 2 "none" 1003) ])))).
Proof.
  assert (H1 : activeSessions w_started !! "m1" = Some 0%nat) by (vm_compute; reflexivity).
  eassert (H2 : sessionObjs w_started !! 0%nat = Some _) by (vm_compute; reflexivity).
  assert (H3 : meetings w_started !! "m1"
               = Some (startedAt 1000 (newMeeting "m1" (standup ["alice"; "bob"] 1000) 0)))
    by (vm_compute; reflexivity).
  assert (H4 : "alice" ∈ Meeting.participants
                 (startedAt 1000 (newMeeting "m1" (standup ["alice"; "bob"] 1000) 0)))
    by (vm_compute; constructor).
  pose proof (X12_standup_round_trip w_started "m1" 0%nat _ _ "alice"
                "the parser" "the printer" "none" 1001 1002 1003 H1 H2 H3 H4 eq_refl) as H.
  cbv zeta in H.
  eapply holds_mono; [|exact H]. intros w1 r1 Hw1.
  eapply holds_mono; [|exact Hw1]. intros w2 r2 Hw2.
  eapply holds_mono; [|exact Hw2]. intros w3 r3 Hw3.
  eapply holds_mono; [|exact Hw3]. intros w4 r4 [Harr _].
  exact Harr.
Defined.

(** X13.  In every state reached by operations served one at a time, two
    participants of a session never share an answers array, so a
    submission by one participant leaves the answers and the stand-up of
    every other participant of the session as they were. *)
Theorem X13_submission_leaves_other_answers w meetingId l s p q b response :
  reachable w ->
  activeSessions w !! meetingId = Some l ->
  sessionObjs w !! l = Some s ->
  Session.activeStandupSessions s !! q = Some b ->
  p <> q ->
  holds (submitStandupResponse meetingId p response w)
    (fun w' _ =>
       arrayObjs w' !! Standup.responses b = arrayObjs w !! Standup.responses b
       /\ exists s', sessionObjs w' !! l = Some s'
                     /\ Session.activeStandupSessions s' !! q = Some b).
Proof.
  intros Hw Hl Hs Hq Hne.
  destruct (Session.activeStandupSessions s !! p) as [sub|] eqn:Hsub.
  - eapply holds_mono; [|apply (submitStandupResponse_heap _ _ _ _ _ _ _ Hl Hs Hsub)].
    intros w' r (ack & Harr & Hobj & _). rewrite Harr, Hobj. split.
    + rewrite lookup_alter_ne; [done|]. intros E.
      by apply Hne, (answers_arrays_distinct w l s p q sub b).
    + rewrite lookup_alter_eq, Hs. cbn. eexists. split; [done|].
      unfold recorded. destruct (_ <? _)%nat.
      * cbn. by rewrite lookup_insert_ne.
      * rewrite storeResponses_standups. cbn. by rewrite lookup_insert_ne.
  - eapply holds_mono; [|apply submitStandupResponse_no_standup].
    + intros w' r [_ [c ->]]. cbn. eauto.
    + unfold session_of. rewrite Hl. cbn. rewrite Hs. by intros ? [= <-].
Qed.

Lemma X13_submission_leaves_other_answers_witness :
  exists s b,
    sessionObjs w_answering !! 0%nat = Some s
    /\ Session.activeStandupSessions s !! "bob" = Some b
    /\ holds (submitStandupResponse "m1" "alice" "the printer" w_answering)
         (fun w' _ =>
            arrayObjs w' !! Standup.responses b
            = arrayObjs w_answering !! Standup.responses b).
Proof.
  assert (H0 : reachable w_answering).
  { apply reachable_serve; [apply reachable_boot|]. vm_compute. tauto. }
  assert (H1 : activeSessions w_answering !! "m1" = Some 0%nat) by (vm_compute; reflexivity).
  eassert (H2 : sessionObjs w_answering !! 0%nat = Some _) by (vm_compute; reflexivity).
  match type of H2 with
  | _ = Some ?s =>
      eassert (H3 : Session.activeStandupSessions s !! "bob" = Some _)
        by (vm_compute; reflexivity)
  end.
  assert (H4 : "alice" <> "bob") by discriminate.
  eexists _, _. split; [exact H2|]. split; [exact H3|].
  eapply holds_mono;
    [|exact (X13_submission_leaves_other_answers w_answering "m1" 0%nat _ "alice" "bob" _
               "the printer" H0 H1 H2 H3 H4)].
  intros w' r [Harr _]. exact Harr.
Defined.

(* ===================================================================== *)
(** ** The last answer of a meeting *)
(* ===================================================================== *)

Lemma completedParticipants_insert p x s :
  completedParticipants (setStandup p x s)
  = ((if Js.truthy (Standup.isComplete x) then 1 else 0)
     + length (filter (fun s : Standup.t => Js.truthy (Standup.isComplete s))
                 (map_to_list (delete p (Session.activeStandupSessions s))).*2))%nat.
Proof.
  unfold completedParticipants. cbn.
  rewrite <- insert_delete_eq.
  rewrite map_to_list_insert by apply lookup_delete_eq.
  rewrite fmap_cons, filter_cons. cbn.
  destruct (Js.truthy (Standup.isComplete x)); cbn.
  - rewrite decide_True by done. done.
  - rewrite decide_False by (by intros []). done.
Qed.

Lemma completedParticipants_recorded p sub ack ack' s :
  completedParticipants (recorded p sub ack s) = completedParticipants (recorded p sub ack' s).
Proof.
  unfold recorded. destruct (_ <? _)%nat.
  - by rewrite !completedParticipants_insert.
  - unfold completedParticipants. rewrite !storeResponses_standups.
    etrans; [apply (completedParticipants_insert p (answered sub _ ack) s)|].
    symmetry. apply (completedParticipants_insert p (answered sub _ ack') s).
Qed.

(** X14.  When a participant gives the third (or a later) answer and with
    it every listed participant is counted complete, the submission ends
    the meeting: provided the summary mail and the task synchronisation
    succeed, it returns the completion message, the meeting is completed
    with its end stamp and duration, and the session is discarded. *)
Theorem X14_last_answer_ends_meeting w meetingId l s m participantName sub response :
  activeSessions w !! meetingId = Some l ->
  sessionObjs w !! l = Some s ->
  meetings w !! meetingId = Some m ->
  Session.activeStandupSessions s !! participantName = Some sub ->
  (2 <= Standup.currentQuestionIndex sub)%nat ->
  completedParticipants (recorded participantName sub EmptyString s)
  = length (Session.participants s) ->
  holds_if mail_and_sync_succeed
    (submitStandupResponse meetingId participantName response w)
    (fun w' r =>
       (exists ack, r = Ok (completionData ack))
       /\ meetings w' !! meetingId = Some (completedAt (now w) s m)
       /\ status_of w' meetingId = Some Completed
       /\ session_of w' meetingId = None).
Proof.
  intros Hl Hs Hm Hsub Hk Hcount.
  eapply holds_mono;
    [|apply (submitStandupResponse_completing _ _ _ _ _ _ _ _ Hl Hs Hsub Hk)].
  intros w' r (ack & H). cbv zeta in H.
  rewrite (completedParticipants_recorded _ _ _ ack) in Hcount.
  unfold recorded in Hcount. apply Nat.ltb_ge in Hk. rewrite Hk in Hcount.
  apply Nat.eqb_eq in Hcount. rewrite Hcount, Hm in H.
  destruct H as [(-> & [c ->] & _)|(_ & _ & [[e He]|[_ [e He]]])].
  - split; [by eexists|]. unfold status_of, session_of. cbn.
    rewrite lookup_alter_eq, Hm, lookup_delete_eq. done.
  - destruct He as [x [=]].
  - destruct He as [x [=]].
Qed.

Lemma X14_last_answer_ends_meeting_witness :
  holds_if mail_and_sync_succeed
    (submitStandupResponse "m1" "bob" "none" w_last_answer)
    (fun w' r =>
       status_of w' "m1" = Some Completed /\ session_of w' "m1" = None).
Proof.
  assert (H1 : activeSessions w_last_answer !! "m1" = Some 0%nat)
    by (vm_compute; reflexivity).
  eassert (H2 : sessionObjs w_last_answer !! 0%nat = Some _) by (vm_compute; reflexivity).
  eassert (H3 : meetings w_last_answer !! "m1" = Some _) by (vm_compute; reflexivity).
  match type of H2 with
  | _ = Some ?s =>
      eassert (H4 : Session.activeStandupSessions s !! "bob" = Some _)
        by (vm_compute; reflexivity)
  end.
  match type of H2 with
  | _ = Some ?s =>
      match type of H4 with
      | _ = Some ?sub =>
          assert (H5 : (2 <= Standup.currentQuestionIndex sub)%nat) by (vm_compute; lia);
          assert (H6 : completedParticipants (recorded "bob" sub EmptyString s)
                       = length (Session.participants s)) by (vm_compute; reflexivity)
      end
  end.
  eapply holds_mono;
    [|exact (X14_last_answer_ends_meeting w_last_answer "m1" 0%nat _ _ "bob" _ "none"
               H1 H2 H3 H4 H5 H6)].
  intros w' r (_ & _ & Hstatus & Hsession). split; [exact Hstatus|exact Hsession].
Defined.

(** X15.  In the same situation, when the summary mail is rejected the
    submission itself fails with [Failed to submit standup response],
    although the answer was stored and the stand-up of the participant is
    complete: the meeting is stamped completed and the session stays
    live. *)
Theorem X15_last_answer_recorded_but_rejected w meetingId l s m participantName sub response :
  activeSessions w !! meetingId = Some l ->
  sessionObjs w !! l = Some s ->
  meetings w !! meetingId = Some m ->
  Session.activeStandupSessions s !! participantName = Some sub ->
  (2 <= Standup.currentQuestionIndex sub)%nat ->
  completedParticipants (recorded participantName sub EmptyString s)
  = length (Session.participants s) ->
  holds_if summary_mail_fails
    (submitStandupResponse meetingId participantName response w)
    (fun w' r =>
       r = Err "Failed to submit standup response"
       /\ status_of w' meetingId = Some Completed
       /\ arrayObjs w'
          = alter (Js.array_set (Standup.currentQuestionIndex sub)
                     (answerTo sub (Standup.currentQuestionIndex sub) response (now w)))
              (Standup.responses sub) (arrayObjs w)
       /\ exists ack,
            session_of w' meetingId = Some (recorded participantName sub ack s)
            /\ standupComplete (recorded participantName sub ack s) participantName).
Proof.
  intros Hl Hs Hm Hsub Hk Hcount.
  eapply holds_mono;
    [|apply (submitStandupResponse_completing _ _ _ _ _ _ _ _ Hl Hs Hsub Hk)].
  intros w' r (ack & H). cbv zeta in H.
  rewrite (completedParticipants_recorded _ _ _ ack) in Hcount.
  assert (Hrec : recorded participantName sub ack s
                 = storeResponses participantName (Standup.responses sub)
                     (setStandup participantName
                        (answered sub (Standup.currentQuestionIndex sub) ack) s)).
  { unfold recorded. apply Nat.ltb_ge in Hk. by rewrite Hk. }
  rewrite Hrec in Hcount.
  apply Nat.eqb_eq in Hcount. rewrite Hcount, Hm in H.
  destruct H as [(_ & _ & [x Hx] & _)|(-> & [c ->] & _)].
  - destruct Hx as [e [=]].
  - split; [done|]. unfold status_of, session_of. cbn.
    rewrite lookup_alter_eq, Hm, Hl. cbn. rewrite lookup_alter_eq, Hs. cbn.
    split; [done|]. split; [done|]. exists ack. rewrite Hrec. split; [done|].
    eexists. rewrite storeResponses_standups. cbn. rewrite lookup_insert_eq.
    split; [done|]. cbn.
    by destruct (Standup.currentQuestionIndex sub) as [|[|k]]; [lia|lia|].
Qed.

Lemma X15_last_answer_recorded_but_rejected_witness :
  holds_if summary_mail_fails
    (submitStandupResponse "m1" "bob" "none" w_last_answer)
    (fun w' r =>
       r = Err "Failed to submit standup response"
       /\ status_of w' "m1" = Some Completed
       /\ is_Some (session_of w' "m1")).
Proof.
  assert (H1 : activeSessions w_last_answer !! "m1" = Some 0%nat)
    by (vm_compute; reflexivity).
  eassert (H2 : sessionObjs w_last_answer !! 0%nat = Some _) by (vm_compute; reflexivity).
  eassert (H3 : meetings w_last_answer !! "m1" = Some _) by (vm_compute; reflexivity).
  match type of H2 with
  | _ = Some ?s =>
      eassert (H4 : Session.activeStandupSessions s !! "bob" = Some _)
        by (vm_compute; reflexivity)
  end.
  match type of H2 with
  | _ = Some ?s =>
      match type of H4 with
      | _ = Some ?sub =>
          assert (H5 : (2 <= Standup.currentQuestionIndex sub)%nat) by (vm_compute; lia);
          assert (H6 : completedParticipants (recorded "bob" sub EmptyString s)
                       = length (Session.participants s)) by (vm_compute; reflexivity)
      end
  end.
  eapply holds_mono;
    [|exact (X15_last_answer_recorded_but_rejected w_last_answer "m1" 0%nat _ _ "bob" _
               "none" H1 H2 H3 H4 H5 H6)].
  intros w' r (Hr & Hstatus & _ & ack & Hsession & _).
  split; [exact Hr|]. split; [exact Hstatus|]. eexists. exact Hsession.
Defined.

Lemma map_size_keys {A} (m : gmap string A) (l : list string) :
  (forall k x, m !! k = Some x -> k ∈ l) ->
  (size m <= length l)%nat /\ (~ NoDup l -> (size m < length l)%nat).
Proof.
  revert m. induction l as [|x t IH]; intros m Hkeys.
  - assert (m = ∅) as ->.
    { apply map_empty. intros k. destruct (m !! k) as [y|] eqn:Hk; [|done].
      by apply Hkeys, elem_of_nil in Hk. }
    rewrite map_size_empty. split; [done|]. intros H. destruct H. constructor.
  - assert (Hdel : forall k y, delete x m !! k = Some y -> k ∈ t).
    { intros k y. rewrite lookup_delete_Some. intros [Hne Hk].
      apply Hkeys, elem_of_cons in Hk as [->|Hk]; done. }
    destruct (IH _ Hdel) as [Hle Hlt].
    assert (Hsize : (size m <= S (size (delete x m)))%nat).
    { rewrite map_size_delete. destruct (m !! x); simpl; lia. }
    cbn. split; [lia|]. intros Hdup.
    destruct (decide (x ∈ t)) as [Hin|Hnin].
    + assert (Hall : forall k y, m !! k = Some y -> k ∈ t).
      { intros k y Hk. apply Hkeys, elem_of_cons in Hk as [->|Hk]; done. }
      destruct (IH _ Hall) as [Hle' _]. lia.
    + assert (Hdup' : ~ NoDup t).
      { intros Ht. apply Hdup. by constructor. }
      specialize (Hlt Hdup'). lia.
Qed.

Lemma completedParticipants_le s :
  (completedParticipants s <= size (Session.activeStandupSessions s))%nat.
Proof.
  unfold completedParticipants.
  etrans; [apply length_filter|]. by rewrite length_fmap, length_map_to_list.
Qed.

(** X16.  In every state reached by operations served one at a time, the
    number of complete stand-ups of a live session never exceeds the number
    of listed participants; and when the list names a participant twice,
    the number stays strictly below it, so the completion detector never
    ends the meeting: [checkMeetingCompletion] returns at once. *)
Theorem X16_duplicate_participant_never_ends w meetingId s :
  reachable w ->
  session_of w meetingId = Some s ->
  (completedParticipants s <= length (Session.participants s))%nat
  /\ (~ NoDup (Session.participants s) ->
      (completedParticipants s < length (Session.participants s))%nat
      /\ checkMeetingCompletion meetingId w = Done w (Ok tt)).
Proof.
  intros Hw Hs. pose proof (reachable_wf w Hw) as Hwf.
  assert (Hl : exists l, sessionObjs w !! l = Some s).
  { unfold session_of in Hs. destruct (activeSessions w !! meetingId) as [l|]; [|done].
    by exists l. }
  destruct Hl as [l Hl].
  destruct (wf_session w Hwf l s Hl) as [Hsound _].
  destruct (map_size_keys (Session.activeStandupSessions s) (Session.participants s))
    as [Hle Hlt].
  { intros p sub Hp. by destruct (Hsound p sub Hp). }
  pose proof (completedParticipants_le s) as Hcount.
  split; [lia|]. intros Hdup. specialize (Hlt Hdup). split; [lia|].
  rewrite (checkMeetingCompletion_unfold _ _ _ Hs).
  destruct (_ =? _)%nat eqn:Heq; [|done]. apply Nat.eqb_eq in Heq. lia.
Qed.

Lemma X16_duplicate_participant_never_ends_witness :
  checkMeetingCompletion "m1" w_twice = Done w_twice (Ok tt).
Proof.
  assert (H1 : reachable w_twice).
  { apply reachable_serve; [apply reachable_boot|]. vm_compute. tauto. }
  eassert (H2 : session_of w_twice "m1" = Some _) by (vm_compute; reflexivity).
  assert (H3 : ~ NoDup ["alice"; "alice"]).
  { intros H. apply NoDup_cons in H as [Hnin _]. apply Hnin. constructor. }
  destruct (X16_duplicate_participant_never_ends w_twice "m1" _ H1 H2) as [_ Hdup].
  exact (proj2 (Hdup H3)).
Defined.

(** X17.  In every state reached by operations served one at a time, a
    session without the virtual Scrum Master has no stand-up at all: no
    participant is counted complete, and every submission to it fails,
    changing nothing but the console. *)
Theorem X17_session_without_scrum_master_collects_nothing w meetingId s :
  reachable w ->
  session_of w meetingId = Some s ->
  Session.isVirtualScrumMaster s = false ->
  Session.activeStandupSessions s = ∅
  /\ completedParticipants s = 0%nat
  /\ forall participantName response,
       holds (submitStandupResponse meetingId participantName response w)
         (fun w' r => r = Err "Failed to submit standup response" /\ console_only w w').
Proof.
  intros Hw Hs Hvsm.
  assert (Hl : exists l, sessionObjs w !! l = Some s).
  { unfold session_of in Hs. destruct (activeSessions w !! meetingId) as [l|]; [|done].
    by exists l. }
  destruct Hl as [l Hl].
  pose proof (no_scrum_master_no_standups w l s Hw Hl Hvsm) as Hempty.
  split; [done|]. split.
  { unfold completedParticipants. by rewrite Hempty, map_to_list_empty. }
  intros participantName response. apply submitStandupResponse_no_standup.
  intros s0 Hs0. assert (s0 = s) as -> by congruence. rewrite Hempty. apply lookup_empty.
Qed.

Lemma X17_session_without_scrum_master_collects_nothing_witness :
  holds (submitStandupResponse "m1" "alice" "the parser" w_plain)
    (fun w' r => r = Err "Failed to submit standup response" /\ console_only w_plain w').
Proof.
  assert (H1 : reachable w_plain).
  { apply reachable_serve; [apply reachable_boot|]. vm_compute. tauto. }
  eassert (H2 : session_of w_plain "m1" = Some _) by (vm_compute; reflexivity).
  destruct (X17_session_without_scrum_master_collects_nothing w_plain "m1" _ H1 H2 eq_refl)
    as (_ & _ & Hsubmit).
  exact (Hsubmit "alice" "the parser").
Defined.

(* ===================================================================== *)
(** ** The routes *)
(* ===================================================================== *)

#[local] Arguments Routes.getMeeting : simpl never.






(** X21.  The health check of the AI routes cannot fail: it answers 200 [AI
    service is healthy] also when the client is not configured or the
    language model rejects the call; and [POST /analyze-blockers], given a
    list of blockers that each have their participant and text, always
    answers 200.  Both change nothing but the console. *)
Theorem X21_ai_routes_cannot_fail blockers w :
  holds (Routes.getHealth w)
    (fun w' r =>
       console_only w w'
       /\ exists testResponse,
            r = Ok {| Routes.h_statusCode := 200; Routes.h_success := true;
                      Routes.h_message := "AI service is healthy";
                      Routes.h_testResponse :=
                        Some (Js.substring0 100 testResponse +:+ "...");
                      Routes.h_error := None |})
  /\ holds (Routes.postAnalyzeBlockers blockers w)
       (fun w' r =>
          console_only w w'
          /\ exists analysis, r = Ok (Routes.ok 200 analysis None)).
Proof.
  split.
  - unfold Routes.getHealth, try_catch, bind.
    step_with generateResponse_spec.
    intros w' r [Hc [text ->]]. cbn. split; [done|]. by eexists.
  - unfold Routes.postAnalyzeBlockers, try_catch, bind.
    step_with analyzeBlockers_spec.
    intros w' r [Hc [analysis ->]]. cbn. split; [done|]. by eexists.
Qed.



(* ===================================================================== *)
(** ** The task synchronisation and the blockers *)
(* ===================================================================== *)

Import WorkItems.

Lemma determineNewState_blocked currentState updateData :
  determineNewState currentState updateData = Some "Blocked"
  <-> blockers updateData <> EmptyString
      /\ Js.includes "no" (Js.toLowerCase (blockers updateData)) = false.
Proof.
  unfold determineNewState.
  destruct (String.eqb_spec (blockers updateData) EmptyString) as [He|He]; cbn.
  - repeat case_match; split; try done; by intros [? _].
  - destruct (Js.includes "no" (Js.toLowerCase (blockers updateData))) eqn:Hno; cbn.
    + repeat case_match; split; try done; by intros [_ ?].
    + by rewrite (includes_no_none _ Hno).
Qed.

(** X23.  The task synchronisation and the summary agree on who is
    blocked.  For a row of the response table whose third answer is not
    empty, [determineNewState] chooses [Blocked] for the update built from
    the row exactly when [extractBlockers] reports a blocker for the
    position of the row. *)
Theorem X23_services_agree_on_blockers currentState responses index row blockerResponse :
  responses !! index = Some (Some row) ->
  row !! 2%nat = Some (Some blockerResponse) ->
  Answer.answer blockerResponse <> EmptyString ->
  determineNewState currentState (updateDataOf row) = Some "Blocked"
  <-> exists b, b ∈ extractBlockers responses
                /\ b_participant b = "Participant " +:+ pretty (index + 1)%nat.
Proof.
  intros Hrow Hthird Hne.
  assert (Hb : blockers (updateDataOf row) = Answer.answer blockerResponse).
  { unfold updateDataOf, answer_or_empty, Js.array_get. cbn. rewrite Hthird. cbn.
    by destruct (Answer.answer blockerResponse). }
  rewrite determineNewState_blocked, Hb. split.
  - intros [_ Hno]. eexists. split.
    + apply elem_of_extractBlockers. by exists index, row, blockerResponse.
    + done.
  - intros (b & (i & row' & a & Hi & Ha & Hno & ->)%elem_of_extractBlockers & Hlabel).
    cbn in Hlabel. apply (inj (String.app "Participant ")) in Hlabel.
    apply (inj pretty) in Hlabel. assert (i = index) as -> by lia.
    by simplify_eq.
Qed.

Lemma X23_services_agree_on_blockers_witness :
  WorkItems.determineNewState None
    (WorkItems.updateDataOf (threeAnswers "reviews" "the release" "The build is red"))
  = Some "Blocked".
Proof.
  assert (H : "The build is red" <> EmptyString) by discriminate.
  apply (X23_services_agree_on_blockers None exampleTable 2%nat
           (threeAnswers "reviews" "the release" "The build is red")
           {| Answer.question := Some "blockers"; Answer.answer := "The build is red";
              Answer.timestamp := 0 |} eq_refl eq_refl H).
  exists redBuild. split; [|vm_compute; reflexivity].
  vm_compute. constructor.
Defined.
